(** * mma_word_embeddings: the embedding wrapper and the ensemble

    A shallow embedding of [mma_word_embeddings/embedding.py]:
    the classes [WordEmbedding] and [EmbeddingEnsemble], with the
    training-corpus statistics, the geometry primitives, the projections on
    bipolar and unipolar dimensions and the ensemble aggregation.

    Conventions.
    - Python [int]s are [Z]; indices of [enumerate] are [Z] as well.
    - Python [str]s are [string]; iterating a [str] yields its one-character
      strings.
    - A [dict] is an association list in insertion order (Python dicts keep
      it, and the column order of the result tables depends on it); the keys
      of a [dict] that a caller passes are distinct.
    - Exceptions are the constructors of [Py.exn]; a method that can raise
      returns a [Py.result].
    - [print] appends a notice to a log that the method returns next to its
      value.
    - Floating-point numbers are idealised as real numbers ([R]); the [nan]
      that numpy returns for the mean of an empty array is [None]. *)

From Stdlib Require Import String Ascii List ZArith Bool Lia.
From Stdlib Require Import DecimalString.
From Stdlib Require Import Reals Lra Permutation Sorted.
Import ListNotations.

Local Open Scope string_scope.
Local Open Scope list_scope.
Local Open Scope Z_scope.

(** ** Python values and control flow *)

Module Py.

Inductive exn : Set :=
| ValueError
| KeyError
| IndexError
| AttributeError
| UnboundLocalError
| FileNotFoundError
| EmbeddingError.

Inductive result (A : Type) : Type :=
| Ok (a : A)
| Raise (e : exn).

Arguments Ok {A} a.
Arguments Raise {A} e.

Definition bind {A B : Type} (c : result A) (k : A -> result B) : result B :=
  match c with
  | Ok a => k a
  | Raise e => Raise e
  end.

(** [[f(x) for x in l]] where [f] may raise: the first exception wins. *)
Fixpoint mapM {A B : Type} (f : A -> result B) (l : list A) : result (list B) :=
  match l with
  | [] => Ok []
  | x :: t =>
      bind (f x) (fun y => bind (mapM f t) (fun ys => Ok (y :: ys)))
  end.

(** [len(l)] *)
Definition len {A : Type} (l : list A) : Z := Z.of_nat (length l).

(** [enumerate(l, k)] *)
Fixpoint enum_from {A : Type} (k : Z) (l : list A) : list (Z * A) :=
  match l with
  | [] => []
  | x :: t => (k, x) :: enum_from (k + 1) t
  end.

Definition enumerate {A : Type} (l : list A) : list (Z * A) := enum_from 0 l.

(** A bound of a slice, as Python normalises it: a negative bound counts
    from the end, and everything is clipped to [0 .. len]. *)
Definition slice_bound (n i : Z) : Z :=
  if i <? 0 then Z.max 0 (i + n) else Z.min i n.

(** [l[a:b]] *)
Definition slice {A : Type} (l : list A) (a b : Z) : list A :=
  let a' := slice_bound (len l) a in
  let b' := slice_bound (len l) b in
  firstn (Z.to_nat (b' - a')) (skipn (Z.to_nat a') l).

(** [l[i]] for a non-negative index. *)
Definition getitem {A : Type} (l : list A) (i : nat) : result A :=
  match nth_error l i with
  | Some x => Ok x
  | None => Raise IndexError
  end.

(** [sep.join(l)] *)
Definition join (sep : string) (l : list string) : string := String.concat sep l.

(** The one-character strings of a [str], as iteration yields them. *)
Fixpoint chars (s : string) : list string :=
  match s with
  | EmptyString => []
  | String c s' => String c EmptyString :: chars s'
  end.

(** [w in l] for a list of strings. *)
Definition str_in (w : string) (l : list string) : bool :=
  existsb (String.eqb w) l.

End Py.

Import Py.

Notation "x <- c ;; k" := (Py.bind c (fun x => k))
  (at level 61, c at next level, right associativity).

(** ** Vectors ([numpy] arrays of floats, idealised over [R]) *)

Module Np.

Local Open Scope R_scope.

Definition vec : Type := list R.

Definition sum (l : list R) : R := fold_right Rplus 0 l.

(** [np.dot(u, v)] *)
Fixpoint dot (u v : vec) : R :=
  match u, v with
  | x :: u', y :: v' => x * y + dot u' v'
  | _, _ => 0
  end.

(** [u - v], componentwise *)
Fixpoint sub (u v : vec) : vec :=
  match u, v with
  | x :: u', y :: v' => (x - y) :: sub u' v'
  | _, _ => []
  end.

Fixpoint add (u v : vec) : vec :=
  match u, v with
  | x :: u', y :: v' => (x + y) :: add u' v'
  | _, _ => []
  end.

(** [v / c] *)
Definition scale_inv (c : R) (v : vec) : vec := map (fun x => x / c) v.

(** [np.linalg.norm(v)] *)
Definition norm (v : vec) : R := sqrt (dot v v).

(** [np.mean(l)] of a flat list; [None] is numpy's [nan] for the empty
    list. *)
Definition mean (l : list R) : option R :=
  match l with
  | [] => None
  | _ => Some (sum l / INR (length l))
  end.

(** [np.std(l)]: numpy's default [ddof=0], the square root of the mean of
    the squared deviations from the mean. *)
Definition std (l : list R) : option R :=
  match mean l with
  | None => None
  | Some m => Some (sqrt (sum (map (fun x => (x - m) * (x - m)) l) / INR (length l)))
  end.

(** [np.mean(np.array(vs), axis=0)]: the componentwise mean of the rows;
    [None] is the [nan] numpy returns when there is no row. *)
Definition mean_axis0 (vs : list vec) : option vec :=
  match vs with
  | [] => None
  | v :: vs' => Some (scale_inv (INR (length vs)) (fold_left add vs' v))
  end.

(** One component of [np.isclose(a, b, rtol, atol)]:
    [|a - b| <= atol + rtol * |b|]. *)
Definition isclose (rtol atol a b : R) : Prop :=
  Rabs (a - b) <= atol + rtol * Rabs b.

(** [np.allclose(u, v, rtol, atol)] for two arrays of one shape. *)
Definition allclose (rtol atol : R) (u v : vec) : Prop :=
  Forall2 (isclose rtol atol) u v.

Definition isclose_dec (rtol atol a b : R) :
  {isclose rtol atol a b} + {~ isclose rtol atol a b} :=
  Rle_dec (Rabs (a - b)) (atol + rtol * Rabs b).

Fixpoint allclose_dec (rtol atol : R) (u v : vec) :
  {allclose rtol atol u v} + {~ allclose rtol atol u v}.
Proof.
  destruct u as [|a u'], v as [|b v'].
  - left. constructor.
  - right. intro H. inversion H.
  - right. intro H. inversion H.
  - destruct (isclose_dec rtol atol a b) as [Hab|Hab].
    + destruct (allclose_dec rtol atol u' v') as [Huv|Huv].
      * left. constructor; assumption.
      * right. intro H. inversion H; subst. contradiction.
    + right. intro H. inversion H; subst. contradiction.
Defined.

(** The default relative tolerance of [np.allclose]. *)
Definition default_rtol : R := 1 / 100000.

End Np.

(** Modelled from the spec: [normalize_vector] is imported from
    [mma_word_embeddings.utils], which is not among the sources.  The spec
    describes normalisation as scaling to unit Euclidean length. *)
Definition normalize_vector (v : Np.vec) : Np.vec := Np.scale_inv (Np.norm v) v.

(** ** class WordEmbedding *)

(** The state of a [WordEmbedding]: the loaded [KeyedVectors] (the
    vocabulary with one raw vector per word) and the optional tokenised
    training corpus.  The [description] and [path_to_embedding] attributes
    only serve printing and are left out. *)
Record WordEmbedding : Type := mkWordEmbedding {
  word_vectors : list (string * Np.vec);
  training_data : option (list (list string))
}.

(** [list(self._word_vectors.vocab)] *)
Definition vocab_keys (emb : WordEmbedding) : list string :=
  map fst (word_vectors emb).

(** [WordEmbedding.vocab_size] *)
Definition vocab_size (emb : WordEmbedding) : Z := len (vocab_keys emb).

(** [WordEmbedding.in_vocab] *)
Definition in_vocab (emb : WordEmbedding) (word : string) : bool :=
  str_in word (vocab_keys emb).

(** *** Training-corpus statistics *)

(** The body of the two nested loops of [context_in_training_data] for one
    sentence. *)
Definition context_window (sentence : list string) (n idx : Z) : string :=
  let start := if idx - n <? 0 then 0 else idx - n in
  let stop := if idx + n >? len sentence - 1 then len sentence - 1 else idx + n in
  join " " (slice sentence start (stop + 1)).

Definition context_in_sentence (word : string) (n : Z) (sentence : list string)
  : list string :=
  flat_map (fun it : Z * string =>
              let (idx, token) := it in
              if String.eqb word token then [context_window sentence n idx] else [])
           (enumerate sentence).

(** [WordEmbedding.context_in_training_data] *)
Definition context_in_training_data (emb : WordEmbedding) (word : string) (n : Z)
  : result (list string) :=
  match training_data emb with
  | None => Raise ValueError
  | Some corpus => Ok (flat_map (context_in_sentence word n) corpus)
  end.

(** The inner loop of [frequency_in_training_data]. *)
Definition count_in_document (word : string) (counter : Z) (document : list string) : Z :=
  fold_left (fun c wrd => if String.eqb wrd word then c + 1 else c) document counter.

(** [WordEmbedding.frequency_in_training_data] *)
Definition frequency_in_training_data (emb : WordEmbedding) (word : string)
  : result Z :=
  match training_data emb with
  | None => Raise ValueError
  | Some corpus => Ok (fold_left (count_in_document word) corpus 0)
  end.

(** A table with the columns [Word] and [Frequency]. *)
Definition freq_table : Type := list (string * Z).

(** [collections.Counter]: one more occurrence of [w]; a new key goes to the
    end. *)
Fixpoint counter_add (w : string) (c : freq_table) : freq_table :=
  match c with
  | [] => [(w, 1)]
  | (k, v) :: c' =>
      if String.eqb k w then (k, v + 1) :: c' else (k, v) :: counter_add w c'
  end.

(** [Counter(l)] *)
Definition Counter (l : list string) : freq_table :=
  fold_left (fun c w => counter_add w c) l [].

(** [DataFrame.head(n)]: the first [n] rows, or for a negative [n] all rows
    but the last [-n]. *)
Definition df_head {A : Type} (n : Z) (rows : list A) : list A :=
  if n <? 0 then firstn (Z.to_nat (len rows + n)) rows
  else firstn (Z.to_nat n) rows.

(** Insertion of a row in a list ordered by [leb]; equal keys keep their
    order. *)
Fixpoint insert_by {A : Type} (leb : A -> A -> bool) (x : A) (l : list A) : list A :=
  match l with
  | [] => [x]
  | y :: t => if leb x y then x :: y :: t else y :: insert_by leb x t
  end.

(** [DataFrame.sort_values]: pandas leaves the order of rows with equal keys
    to the sorting algorithm; the model keeps them in their order. *)
Definition sort_by {A : Type} (leb : A -> A -> bool) (l : list A) : list A :=
  fold_right (insert_by leb) [] l.

(** [res.sort_values(by='Frequency', ascending=False)] *)
Definition freq_desc (a b : string * Z) : bool := snd b <=? snd a.

(** [WordEmbedding.sort_by_frequency_in_training_data] *)
Definition sort_by_frequency_in_training_data (emb : WordEmbedding)
  (list_of_words : list string) : result freq_table :=
  freqs <- mapM (frequency_in_training_data emb) list_of_words ;;
  Ok (sort_by freq_desc (combine list_of_words freqs)).

(** [WordEmbedding.vocab_sorted_by_frequency_in_training_data] *)
Definition vocab_sorted_by_frequency_in_training_data (emb : WordEmbedding)
  (first_n more_frequent_than : option Z) : result freq_table :=
  match training_data emb with
  | None => Raise ValueError
  | Some corpus =>
      let more_frequent_than :=
        match more_frequent_than with
        | Some 0 => None
        | m => m
        end in
      let flat_training_data := concat corpus in
      let c := Counter flat_training_data in
      let res := c in
      let res := match first_n with
                 | Some n => df_head n res
                 | None => res
                 end in
      let res := match more_frequent_than with
                 | Some m => filter (fun row => snd row >? m) res
                 | None => res
                 end in
      Ok res
  end.

(** [WordEmbedding.training_data_size] *)
Definition training_data_size (emb : WordEmbedding) : result Z :=
  match training_data emb with
  | None => Raise ValueError
  | Some corpus => Ok (fold_left (fun counter sentence => counter + len sentence) corpus 0)
  end.

(** *** Vector access and geometry primitives *)

(** [self._word_vectors[word]] *)
Fixpoint kv_lookup (kv : list (string * Np.vec)) (word : string) : result Np.vec :=
  match kv with
  | [] => Raise KeyError
  | (k, v) :: kv' => if String.eqb k word then Ok v else kv_lookup kv' word
  end.

(** [WordEmbedding.vector] *)
Definition vector (emb : WordEmbedding) (word : string) : result Np.vec :=
  v <- kv_lookup (word_vectors emb) word ;;
  Ok (normalize_vector v).

(** [WordEmbedding.vectors] *)
Definition vectors (emb : WordEmbedding) (list_of_words : list string)
  : result (list Np.vec) :=
  mapM (vector emb) list_of_words.

(** The branch of [difference_vector] on [np.allclose(vec1, vec2, atol=1e-10)];
    the relative tolerance is not passed and keeps numpy's default. *)
Definition difference_atol : R := (1 / 10000000000)%R.

(** [WordEmbedding.difference_vector] *)
Definition difference_vector (emb : WordEmbedding) (word1 word2 : string)
  (normalize : bool) : result Np.vec :=
  vec1 <- vector emb word1 ;;
  vec2 <- vector emb word2 ;;
  if Np.allclose_dec Np.default_rtol difference_atol vec1 vec2 then Raise ValueError
  else
    let diff := Np.sub vec1 vec2 in
    Ok (if normalize then normalize_vector diff else diff).

(** [WordEmbedding.centroid_of_vectors]; [None] is the [nan] that the mean of
    no vector gives. *)
Definition centroid_of_vectors (emb : WordEmbedding) (list_of_words : list string)
  (normalize : bool) : result (option Np.vec) :=
  vecs <- mapM (vector emb) list_of_words ;;
  let centroid := Np.mean_axis0 vecs in
  Ok (if normalize then option_map normalize_vector centroid else centroid).

(** [WordEmbedding.similarity] *)
Definition similarity (emb : WordEmbedding) (word1 word2 : string) : result R :=
  v1 <- vector emb word1 ;;
  v2 <- vector emb word2 ;;
  Ok (Np.dot v1 v2).

(** Rounding to the nearest integer, halves to the even neighbour. *)
Definition round_half_even (x : R) : Z :=
  let f := Int_part x in
  let r := (x - IZR f)%R in
  if Rlt_dec r (1 / 2) then f
  else if Rlt_dec (1 / 2) r then f + 1
  else if Z.even f then f else f + 1.

(** [round(x, 3)] *)
Definition round3 (x : R) : R := (IZR (round_half_even (x * 1000)) / 1000)%R.

(** A row of the table of [WordEmbedding.similarities]:
    [Word1], [Word2], [Similarity]. *)
Definition sim_row : Type := string * string * R.

Definition sim_asc (a b : sim_row) : bool :=
  if Rle_dec (snd a) (snd b) then true else false.

(** [WordEmbedding.similarities] *)
Definition similarities (emb : WordEmbedding) (list_of_word_pairs : list (string * string))
  : result (list sim_row) :=
  result <- mapM (fun p : string * string =>
                    let (word1, word2) := p in
                    s <- similarity emb word1 word2 ;;
                    Ok (word1, word2, round3 s))
                 list_of_word_pairs ;;
  Ok (sort_by sim_asc result).

(** *** Projections on dimensions *)

(** An element of a bipolar dimension's specification: a cluster (a list of
    words), or a bare word when the caller passed a flat list. *)
Inductive cluster : Type :=
| WordList (ws : list string)
| BareWord (w : string).

(** [isinstance(c, list)] *)
Definition is_list (c : cluster) : bool :=
  match c with
  | WordList _ => true
  | BareWord _ => false
  end.

(** The items that [for dim_word in c] visits. *)
Definition iter_cluster (c : cluster) : list string :=
  match c with
  | WordList ws => ws
  | BareWord w => chars w
  end.

(** A cell of a projection table: a number, or [None] for [nan]. *)
Definition cell : Type := option R.

(** A row of a projection table: the test word and its cells. *)
Definition proj_row : Type := string * list cell.

(** The order of [df.sort_values(cols[1:], ascending=False)]: the columns are
    compared from the left, larger values first and [nan] last. *)
Fixpoint cells_desc (a b : list cell) : bool :=
  match a, b with
  | x :: a', y :: b' =>
      match x, y with
      | Some u, Some v =>
          if Rlt_dec v u then true
          else if Rlt_dec u v then false
          else cells_desc a' b'
      | Some _, None => true
      | None, Some _ => false
      | None, None => cells_desc a' b'
      end
  | _, _ => true
  end.

Definition rows_desc (a b : proj_row) : bool := cells_desc (snd a) (snd b).

(** [np.dot(test_vec, d)] where [d] may be [nan]. *)
Definition dot_cell (test_vec : Np.vec) (d : option Np.vec) : cell :=
  option_map (Np.dot test_vec) d.

(** [l - r] where either may be [nan]. *)
Definition sub_cell (l r : option Np.vec) : option Np.vec :=
  match l, r with
  | Some u, Some v => Some (Np.sub u v)
  | _, _ => None
  end.

(** The body of the loop over [dimensions.values()] in
    [WordEmbedding.projections_to_bipolar_dimensions]. *)
Definition bipolar_cell (emb : WordEmbedding) (test_vec : Np.vec)
  (normalize_before normalize_centroids : bool) (dim_clusters : list cluster)
  : result cell :=
  if negb (len dim_clusters =? 2) then Raise ValueError
  else
    c0 <- getitem dim_clusters 0 ;;
    centroid_left_cluster <- centroid_of_vectors emb (iter_cluster c0) false ;;
    c1 <- getitem dim_clusters 1 ;;
    centroid_right_cluster <- centroid_of_vectors emb (iter_cluster c1) false ;;
    let unit c := option_map (fun v => Np.scale_inv (Np.norm v) v) c in
    let centroid_left_cluster :=
      if normalize_centroids then unit centroid_left_cluster else centroid_left_cluster in
    let centroid_right_cluster :=
      if normalize_centroids then unit centroid_right_cluster else centroid_right_cluster in
    let diff := sub_cell centroid_left_cluster centroid_right_cluster in
    let diff := if normalize_before then option_map normalize_vector diff else diff in
    Ok (dot_cell test_vec diff).

(** [WordEmbedding.projections_to_bipolar_dimensions]; [test] is the list of
    test words (a single [str] is wrapped in a list by the method). *)
Definition projections_to_bipolar_dimensions (emb : WordEmbedding)
  (test : list string) (dimensions : list (string * list cluster))
  (normalize_before normalize_centroids : bool) : result (list proj_row) :=
  data <- mapM (fun test_word =>
                  test_vec <- vector emb test_word ;;
                  row <- mapM (bipolar_cell emb test_vec normalize_before normalize_centroids)
                              (map snd dimensions) ;;
                  Ok (test_word, row))
               test ;;
  Ok (sort_by rows_desc data).

(** [WordEmbedding.projections_to_unipolar_dimensions].  The dimensions are
    flat lists of words, for which the shape test
    [len(np.array(dim_cluster).shape) != 1] never raises. *)
Definition projections_to_unipolar_dimensions (emb : WordEmbedding)
  (test : list string) (dimensions : list (string * list string))
  (normalize_before : bool) : result (list proj_row) :=
  data <- mapM (fun test_word =>
                  test_vec <- vector emb test_word ;;
                  row <- mapM (fun dim_cluster =>
                                 centroid <- centroid_of_vectors emb dim_cluster false ;;
                                 let centroid :=
                                   if normalize_before
                                   then option_map normalize_vector centroid
                                   else centroid in
                                 Ok (dot_cell test_vec centroid))
                              (map snd dimensions) ;;
                  Ok (test_word, row))
               test ;;
  Ok (sort_by rows_desc data).

(** *** Construction *)

(** What the constructors read from outside: [KeyedVectors.load] ([None]
    when it raises, whatever the exception), [open] followed by reading the
    lines ([None] when the file cannot be opened) and [glob.glob]. *)
Record FileSystem : Type := mkFileSystem {
  kv_load : string -> option (list (string * Np.vec));
  read_lines : string -> option (list string);
  glob_glob : string -> list string
}.

(** The characters at which [str.split()] cuts (ASCII). *)
Definition is_space (c : ascii) : bool :=
  let n := nat_of_ascii c in
  ((9 <=? n) && (n <=? 13) || (28 <=? n) && (n <=? 32))%nat.

(** [s.strip().split()], with the pending token in [tok]. *)
Fixpoint split_ws (tok : string) (s : string) : list string :=
  match s with
  | EmptyString => match tok with EmptyString => [] | _ => [tok] end
  | String c s' =>
      if is_space c
      then match tok with
           | EmptyString => split_ws EmptyString s'
           | _ => tok :: split_ws EmptyString s'
           end
      else split_ws (tok ++ String c EmptyString)%string s'
  end.

(** [WordEmbedding.load_training_data] *)
Definition load_training_data (fs : FileSystem) (emb : WordEmbedding)
  (path_training_data : option string) : result WordEmbedding :=
  match path_training_data with
  | None => Ok emb
  | Some p =>
      match read_lines fs p with
      | None => Raise FileNotFoundError
      | Some lines =>
          Ok {| word_vectors := word_vectors emb;
                training_data := Some (map (split_ws EmptyString) lines) |}
      end
  end.

(** [WordEmbedding.__init__] *)
Definition WordEmbedding_init (fs : FileSystem) (path_to_embedding : string)
  (path_training_data : option string) : result WordEmbedding :=
  match kv_load fs path_to_embedding with
  | None => Raise EmbeddingError
  | Some kv =>
      let self := {| word_vectors := kv; training_data := None |} in
      match path_training_data with
      | None => Ok self
      | Some _ => load_training_data fs self path_training_data
      end
  end.

(** ** class EmbeddingEnsemble *)

(** The instance attributes that [EmbeddingEnsemble.__init__] assigns are
    [list_of_embeddings] and [description]; the latter only serves
    printing. *)
Record EmbeddingEnsemble : Type := mkEmbeddingEnsemble {
  list_of_embeddings : list WordEmbedding
}.

Definition ensemble_instance_attributes : list string :=
  ["list_of_embeddings"; "description"].

(** The names that the class body of [EmbeddingEnsemble] defines. *)
Definition ensemble_class_attributes : list string :=
  ["shared_vocab"; "in_vocab"; "similarity"; "similarities";
   "projections_to_bipolar_dimensions"; "projections_to_unipolar_dimensions"].

(** The lookup [self.name] on an ensemble: it raises when neither the
    instance nor the class has the name. *)
Definition ensemble_getattr (name : string) : result unit :=
  if str_in name (ensemble_instance_attributes ++ ensemble_class_attributes)
  then Ok tt
  else Raise AttributeError.

(** The argument of the constructor: a list of paths, or a prefix that is
    completed with [*.emb] and handed to [glob]. *)
Inductive path_spec : Type :=
| PathList (paths : list string)
| PathPrefix (prefix : string).

(** The body of the loop over the paths in [EmbeddingEnsemble.__init__]:
    [try: emb = WordEmbedding(path) except FileNotFoundError: raise
    EmbeddingError(...)]. *)
Definition load_member (fs : FileSystem) (path : string) : result WordEmbedding :=
  match WordEmbedding_init fs path None with
  | Raise FileNotFoundError => Raise EmbeddingError
  | r => r
  end.

(** [EmbeddingEnsemble.__init__] *)
Definition EmbeddingEnsemble_init (fs : FileSystem) (path_to_embeddings : path_spec)
  : result EmbeddingEnsemble :=
  paths <- match path_to_embeddings with
           | PathList paths => Ok paths
           | PathPrefix prefix =>
               let paths := glob_glob fs (prefix ++ "*.emb")%string in
               if len paths =? 0 then Raise EmbeddingError else Ok paths
           end ;;
  embs <- mapM (load_member fs) paths ;;
  Ok {| list_of_embeddings := embs |}.

(** *** Similarities across the ensemble *)

(** A row of the merged table: [Word1], [Word2] and one similarity per
    merged member, in the order of the columns. *)
Definition wide_row : Type := string * string * list R.

(** [pd.merge(base_df, df, on=['Word1', 'Word2'])]: the inner join, in the
    order of the left rows. *)
Definition merge_on_words (base_df : list wide_row) (df : list sim_row) : list wide_row :=
  flat_map (fun l : wide_row =>
              let '(a1, a2, sims) := l in
              map (fun r : sim_row => (a1, a2, sims ++ [snd r]))
                  (filter (fun r : sim_row =>
                             String.eqb (fst (fst r)) a1 && String.eqb (snd (fst r)) a2)
                          df))
           base_df.

(** [str(n)] for an integer *)
Definition str_of_Z (n : Z) : string := DecimalString.NilZero.string_of_int (Z.to_int n).

(** [DataFrame.std(axis=1)] on the numbers of one row: pandas' default
    [ddof=1]; [nan] for fewer than two numbers. *)
Definition pd_std (l : list R) : cell :=
  match Np.mean l with
  | None => None
  | Some m =>
      if (length l <=? 1)%nat then None
      else Some (sqrt (Np.sum (map (fun x => (x - m) * (x - m)) l) / (INR (length l) - 1)))%R
  end.

(** The numeric cells of a row once [MEAN] has been added; pandas skips a
    [nan]. *)
Definition numeric_cells (sims : list R) (mean : cell) : list R :=
  sims ++ match mean with Some m => [m] | None => [] end.

(** The merged table with its [MEAN] and [STD] columns. *)
Record sim_table : Type := mkSimTable {
  sim_columns : list string;
  sim_rows : list (wide_row * cell * cell)
}.

(** The body of the loop over the other members in
    [EmbeddingEnsemble.similarities]: the column names and the rows of
    [base_df] after the merge with the table of one more member. *)
Definition merge_member (list_of_word_pairs : list (string * string))
  (acc : result (list string * list wide_row)) (it : Z * WordEmbedding)
  : result (list string * list wide_row) :=
  st <- acc ;;
  let (idx, emb) := it in
  df <- similarities emb list_of_word_pairs ;;
  Ok (fst st ++ [("Sim_emb" ++ str_of_Z (idx + 2))%string], merge_on_words (snd st) df).

(** [EmbeddingEnsemble.similarities] up to the assignment of the [STD]
    column. *)
Definition ens_similarities_table (ens : EmbeddingEnsemble)
  (list_of_word_pairs : list (string * string)) : result sim_table :=
  emb0 <- getitem (list_of_embeddings ens) 0 ;;
  base_df <- similarities emb0 list_of_word_pairs ;;
  let base_df : list wide_row := map (fun r : sim_row => (fst (fst r), snd (fst r), [snd r])) base_df in
  merged <- fold_left (merge_member list_of_word_pairs)
              (enumerate (tl (list_of_embeddings ens)))
              (Ok (["Word1"; "Word2"; "Sim_emb1"], base_df)) ;;
  let with_mean := map (fun r : wide_row => (r, Np.mean (snd r))) (snd merged) in
  let with_std :=
    map (fun rm : wide_row * cell =>
           (rm, pd_std (numeric_cells (snd (fst rm)) (snd rm))))
        with_mean in
  Ok {| sim_columns := fst merged ++ ["MEAN"; "STD"]; sim_rows := with_std |}.

(** [EmbeddingEnsemble.similarities].  After the [STD] column the method
    reads [self.training_data] to decide whether to add the frequency
    columns. *)
Definition ens_similarities (ens : EmbeddingEnsemble)
  (list_of_word_pairs : list (string * string)) : result sim_table :=
  base_df <- ens_similarities_table ens list_of_word_pairs ;;
  _ <- ensemble_getattr "training_data" ;;
  Ok base_df.

(** *** Projections across the ensemble *)

Inductive side : Set := SideLeft | SideRight | SideOnly.

(** The informational messages that the ensemble prints. *)
Inductive notice : Type :=
| NoGeneratingWords (s : side) (dim_name : string) (idx : Z)
| GeneratingWordsNotFound (s : side) (dim_words_not_in_emb : list string) (idx : Z)
| TestWordInNoEmbedding (test_word : string)
| TestWordNotFound (test_word : string) (not_in : list Z).

(** A loop whose body returns a value and prints. *)
Fixpoint mapM_log {A B : Type} (f : A -> result (B * list notice)) (l : list A)
  : result (list B * list notice) :=
  match l with
  | [] => Ok ([], [])
  | x :: t =>
      y <- f x ;;
      ys <- mapM_log f t ;;
      Ok (fst y :: fst ys, snd y ++ snd ys)
  end.

Definition is_empty {A : Type} (l : list A) : bool :=
  match l with
  | [] => true
  | _ => false
  end.

(** The items that a loop added, when each round adds one item or none
    ([continue]). *)
Definition set_entries {A : Type} (l : list (option A)) : list A :=
  flat_map (fun o => match o with Some x => [x] | None => [] end) l.

(** [d[key]] for a dict with [str] keys *)
Fixpoint dict_get {V : Type} (d : list (string * V)) (key : string) : result V :=
  match d with
  | [] => Raise KeyError
  | (k, v) :: d' => if String.eqb k key then Ok v else dict_get d' key
  end.

(** [d.get(idx)] for a dict with [int] keys *)
Fixpoint idx_get {V : Type} (d : list (Z * V)) (idx : Z) : option V :=
  match d with
  | [] => None
  | (k, v) :: d' => if k =? idx then Some v else idx_get d' idx
  end.

(** The test on a dimension at the head of the first loop of
    [EmbeddingEnsemble.projections_to_bipolar_dimensions]:
    [len(dim_words) != 2 and not (isinstance(dim_words[0], list) and
    isinstance(dim_words[1], list))]. *)
Definition ens_bipolar_check (dim_words : list cluster) : result unit :=
  if negb (len dim_words =? 2) then
    c0 <- getitem dim_words 0 ;;
    if is_list c0 then
      c1 <- getitem dim_words 1 ;;
      if is_list c1 then Ok tt else Raise ValueError
    else Raise ValueError
  else Ok tt.

(** The body of the loop over the members for one bipolar dimension: the
    entry of [processed_dims[dim_name]] that it sets, if any, and what it
    prints. *)
Definition ens_bipolar_member (dim_name : string) (dim_words : list cluster)
  (it : Z * WordEmbedding)
  : result (option (Z * (list string * list string)) * list notice) :=
  let (idx, emb) := it in
  c0 <- getitem dim_words 0 ;;
  let (left_dim_words_in_emb, left_dim_words_not_in_emb) :=
    partition (in_vocab emb) (iter_cluster c0) in
  if is_empty left_dim_words_in_emb
  then Ok (None, [NoGeneratingWords SideLeft dim_name idx])
  else
    let left_notice :=
      if is_empty left_dim_words_not_in_emb then []
      else [GeneratingWordsNotFound SideLeft left_dim_words_not_in_emb idx] in
    c1 <- getitem dim_words 1 ;;
    let (right_dim_words_in_emb, right_dim_words_not_in_emb) :=
      partition (in_vocab emb) (iter_cluster c1) in
    if is_empty right_dim_words_in_emb
    then Ok (None, left_notice ++ [NoGeneratingWords SideRight dim_name idx])
    else
      let right_notice :=
        if is_empty right_dim_words_not_in_emb then []
        else [GeneratingWordsNotFound SideRight right_dim_words_not_in_emb idx] in
      Ok (Some (idx, (left_dim_words_in_emb, right_dim_words_in_emb)),
          left_notice ++ right_notice).

(** The first loop of [EmbeddingEnsemble.projections_to_bipolar_dimensions]:
    [processed_dims] and the notices. *)
Definition ens_bipolar_processed_dims (ens : EmbeddingEnsemble)
  (dimensions : list (string * list cluster))
  : result (list (string * list (Z * (list string * list string))) * list notice) :=
  mapM_log (fun d : string * list cluster =>
              let (dim_name, dim_words) := d in
              _ <- ens_bipolar_check dim_words ;;
              r <- mapM_log (ens_bipolar_member dim_name dim_words)
                            (enumerate (list_of_embeddings ens)) ;;
              Ok ((dim_name, set_entries (fst r)), snd r))
           dimensions.

(** The body of the loop over the members for one unipolar dimension.  The
    words that it checks are those that [for dim_word in dim_words[0]]
    visits. *)
Definition ens_unipolar_member (dim_name : string) (dim_words : list string)
  (it : Z * WordEmbedding) : result (option (Z * list string) * list notice) :=
  let (idx, emb) := it in
  w0 <- getitem dim_words 0 ;;
  let (dim_words_in_emb, dim_words_not_in_emb) :=
    partition (in_vocab emb) (chars w0) in
  if is_empty dim_words_in_emb
  then Ok (None, [NoGeneratingWords SideOnly dim_name idx])
  else
    let notices :=
      if is_empty dim_words_not_in_emb then []
      else [GeneratingWordsNotFound SideOnly dim_words_not_in_emb idx] in
    Ok (Some (idx, dim_words_in_emb), notices).

(** The first loop of [EmbeddingEnsemble.projections_to_unipolar_dimensions].
    The dimensions are flat lists of words, for which the shape test never
    raises. *)
Definition ens_unipolar_processed_dims (ens : EmbeddingEnsemble)
  (dimensions : list (string * list string))
  : result (list (string * list (Z * list string)) * list notice) :=
  mapM_log (fun d : string * list string =>
              let (dim_name, dim_words) := d in
              r <- mapM_log (ens_unipolar_member dim_name dim_words)
                            (enumerate (list_of_embeddings ens)) ;;
              Ok ((dim_name, set_entries (fst r)), snd r))
           dimensions.

(** The indices of the members that have the test word. *)
Definition emb_idx_of (ens : EmbeddingEnsemble) (test_word : string) : list Z :=
  map fst (filter (fun it : Z * WordEmbedding => in_vocab (snd it) test_word)
                  (enumerate (list_of_embeddings ens))).

(** [set(range(len(self.list_of_embeddings))) - set(emb_idx)] *)
Definition not_in_of (ens : EmbeddingEnsemble) (emb_idx : list Z) : list Z :=
  filter (fun i => negb (existsb (Z.eqb i) emb_idx))
         (map fst (enumerate (list_of_embeddings ens))).

(** [np.mean(results)] and [np.std(results)] when a result may be [nan]. *)
Fixpoint all_some {A : Type} (l : list (option A)) : option (list A) :=
  match l with
  | [] => Some []
  | Some x :: t => option_map (cons x) (all_some t)
  | None :: _ => None
  end.

Definition mean_cells (results : list cell) : cell :=
  match all_some results with
  | Some l => Np.mean l
  | None => None
  end.

Definition std_cells (results : list cell) : cell :=
  match all_some results with
  | Some l => Np.std l
  | None => None
  end.

(** The results of the members for one test word and one dimension: the
    loop [for idx in emb_idx: if idx in processed: ...], with the score of a
    member given by [score]. *)
Definition member_results {C : Type} (ens : EmbeddingEnsemble) (emb_idx : list Z)
  (processed : list (Z * C)) (score : WordEmbedding -> C -> result cell)
  : result (list cell) :=
  rs <- mapM (fun idx =>
                match idx_get processed idx with
                | Some c =>
                    emb <- getitem (list_of_embeddings ens) (Z.to_nat idx) ;;
                    r <- score emb c ;;
                    Ok [r]
                | None => Ok []
                end)
             emb_idx ;;
  Ok (concat rs).

(** The score of one member on a bipolar dimension. *)
Definition ens_bipolar_score (test_word : string) (normalize_before : bool)
  (emb : WordEmbedding) (c : list string * list string) : result cell :=
  test_vec <- vector emb test_word ;;
  centroid_left <- centroid_of_vectors emb (fst c) false ;;
  centroid_right <- centroid_of_vectors emb (snd c) false ;;
  let diff := sub_cell centroid_left centroid_right in
  let diff := if normalize_before then option_map normalize_vector diff else diff in
  Ok (dot_cell test_vec diff).

(** The score of one member on a unipolar dimension. *)
Definition ens_unipolar_score (test_word : string) (normalize_before : bool)
  (emb : WordEmbedding) (c : list string) : result cell :=
  test_vec <- vector emb test_word ;;
  centroid <- centroid_of_vectors emb c false ;;
  let centroid := if normalize_before then option_map normalize_vector centroid else centroid in
  Ok (dot_cell test_vec centroid).

(** The body of the loop over the test words, shared by the two methods:
    [dim_names] are the keys that the inner loop visits. *)
Definition ens_row {C : Type} (ens : EmbeddingEnsemble)
  (processed_dims : list (string * list (Z * C))) (dim_names : list string)
  (score : string -> WordEmbedding -> C -> result cell) (test_word : string)
  : result (option proj_row * list notice) :=
  let emb_idx := emb_idx_of ens test_word in
  if is_empty emb_idx then Ok (None, [TestWordInNoEmbedding test_word])
  else
    let not_in := not_in_of ens emb_idx in
    let notices := if is_empty not_in then [] else [TestWordNotFound test_word not_in] in
    cells <- mapM (fun dim_name =>
                     processed <- dict_get processed_dims dim_name ;;
                     results <- member_results ens emb_idx processed (score test_word) ;;
                     Ok [mean_cells results; std_cells results])
                  dim_names ;;
    Ok (Some (test_word, concat cells), notices).

(** The table of an ensemble projection and what was printed. *)
Record ens_table : Type := mkEnsTable {
  ens_columns : list string;
  ens_rows : list proj_row;
  ens_notices : list notice
}.

(** The end of both methods: the column names and the sorted table.  The
    list [cols] is assigned in the body of the loop over the test words. *)
Definition ens_finish (test : list string) (dim_names : list string)
  (rows : list (option proj_row)) (notices : list notice) : result ens_table :=
  if is_empty test then Raise UnboundLocalError
  else
    let cols := "test_word" :: flat_map (fun dim => [dim; (dim ++ "(std)")%string]) dim_names in
    Ok {| ens_columns := cols;
          ens_rows := sort_by rows_desc (set_entries rows);
          ens_notices := notices |}.

(** [EmbeddingEnsemble.projections_to_bipolar_dimensions]; the second loop
    visits the keys of [dimensions]. *)
Definition ens_projections_to_bipolar_dimensions (ens : EmbeddingEnsemble)
  (test : list string) (dimensions : list (string * list cluster))
  (normalize_before : bool) : result ens_table :=
  pd <- ens_bipolar_processed_dims ens dimensions ;;
  let processed_dims := fst pd in
  rows <- mapM_log (ens_row ens processed_dims (map fst dimensions)
                            (fun test_word => ens_bipolar_score test_word normalize_before))
                   test ;;
  ens_finish test (map fst dimensions) (fst rows) (snd pd ++ snd rows).

(** [EmbeddingEnsemble.projections_to_unipolar_dimensions]; the second loop
    visits the keys of [processed_dims]. *)
Definition ens_projections_to_unipolar_dimensions (ens : EmbeddingEnsemble)
  (test : list string) (dimensions : list (string * list string))
  (normalize_before : bool) : result ens_table :=
  pd <- ens_unipolar_processed_dims ens dimensions ;;
  let processed_dims := fst pd in
  rows <- mapM_log (ens_row ens processed_dims (map fst processed_dims)
                            (fun test_word => ens_unipolar_score test_word normalize_before))
                   test ;;
  ens_finish test (map fst dimensions) (fst rows) (snd pd ++ snd rows).

(** ** The behaviour that the documentation describes, for comparison *)

(** The tokens of a sentence at the positions [idx - n .. idx + n] that the
    sentence has. *)
Definition tokens_around (sentence : list string) (idx n : Z) : list string :=
  map snd (filter (fun it : Z * string => (idx - n <=? fst it) && (fst it <=? idx + n))
                  (enumerate sentence)).

(** The positions of a word in a sentence. *)
Definition occurrences (word : string) (sentence : list string) : list Z :=
  map fst (filter (fun it : Z * string => String.eqb word (snd it)) (enumerate sentence)).

(** One string per occurrence of the word: the tokens around it, joined by
    spaces. *)
Definition contexts_of_occurrences (corpus : list (list string)) (word : string) (n : Z)
  : list string :=
  flat_map (fun sentence =>
              map (fun idx => join " " (tokens_around sentence idx n))
                  (occurrences word sentence))
           corpus.

(** A frequency table with the most frequent word first. *)
Definition most_frequent_first (t : freq_table) : Prop :=
  StronglySorted (fun a b : string * Z => snd b <= snd a) t.

(** A dimension of two clusters whose words are all in the vocabulary. *)
Definition computable_dimension (emb : WordEmbedding) (dim_clusters : list cluster) : Prop :=
  len dim_clusters = 2
  /\ forall c w, In c dim_clusters -> In w (iter_cluster c) -> in_vocab emb w = true.

(** Both words of every pair are in the vocabulary. *)
Definition pairs_in_vocab (pairs : list (string * string)) (emb : WordEmbedding) : Prop :=
  forall p, In p pairs -> in_vocab emb (fst p) = true /\ in_vocab emb (snd p) = true.

(** ** Small embeddings used as examples *)

Definition example_kv_A : list (string * Np.vec) :=
  [("man", [1; 0]%R); ("woman", [0; 1]%R); ("king", [3; 4]%R)].

Definition example_kv_B : list (string * Np.vec) :=
  [("man", [1; 0]%R); ("woman", [0; 1]%R)].

Definition example_emb_A : WordEmbedding :=
  {| word_vectors := example_kv_A; training_data := None |}.

Definition example_emb_B : WordEmbedding :=
  {| word_vectors := example_kv_B; training_data := None |}.

Definition example_corpus : list (list string) :=
  [["king"; "queen"]; ["the"; "queen"; "rules"; "here"]].

Definition example_emb_corpus : WordEmbedding :=
  {| word_vectors := example_kv_A; training_data := Some example_corpus |}.

(** A file system with the two embeddings and no other file. *)
Definition example_fs : FileSystem :=
  {| kv_load := fun path =>
       if String.eqb path "a.emb" then Some example_kv_A
       else if String.eqb path "b.emb" then Some example_kv_B
       else None;
     read_lines := fun _ => None;
     glob_glob := fun pattern =>
       if String.eqb pattern "*.emb" then ["a.emb"; "b.emb"] else [] |}.

Definition example_ensemble : EmbeddingEnsemble :=
  {| list_of_embeddings := [example_emb_A; example_emb_B] |}.

(** The sample standard deviation of a list of numbers: the square root of
    the sum of the squared deviations from the mean, divided by one less than
    the number of values; pandas computes it by default. *)
Definition sample_standard_deviation (l : list R) : option R := pd_std l.

(** The cells of a row of an ensemble projection, dimension by dimension:
    the mean and the deviation ([np.std]) of the results of the members that
    have the test word and an entry for the dimension. *)
Definition row_aggregates {C : Type} (ens : EmbeddingEnsemble)
  (processed_dims : list (string * list (Z * C))) (dim_names : list string)
  (score : string -> WordEmbedding -> C -> result cell) (row : proj_row) : Prop :=
  exists results_per_dim : list (list cell),
    Forall2 (fun dim_name results =>
               exists processed,
                 dict_get processed_dims dim_name = Ok processed
                 /\ member_results ens (emb_idx_of ens (fst row)) processed (score (fst row))
                    = Ok results)
            dim_names results_per_dim
    /\ snd row = flat_map (fun results => [mean_cells results; std_cells results])
                          results_per_dim.

Definition example_kv_C : list (string * Np.vec) :=
  [("man", [1; 0]%R); ("woman", [3; 4]%R)].

Definition example_emb_C : WordEmbedding :=
  {| word_vectors := example_kv_C; training_data := None |}.

Definition example_ensemble_AC : EmbeddingEnsemble :=
  {| list_of_embeddings := [example_emb_A; example_emb_C] |}.

Definition example_gender : list (string * list cluster) :=
  [("gender", [WordList ["man"]; WordList ["woman"]])].

(** Two words whose unit vectors differ by about 3e-6 in each component. *)
Definition example_kv_close : list (string * Np.vec) :=
  [("colour", [3; 4]%R); ("color", [15000100000; 20000300001]%R)].

Definition example_emb_close : WordEmbedding :=
  {| word_vectors := example_kv_close; training_data := None |}.

(** ** Further methods of the two classes *)

(** [word.count("_")] *)
Fixpoint count_underscores (word : string) : Z :=
  match word with
  | EmptyString => 0
  | String c word' => (if Ascii.eqb c "_" then 1 else 0) + count_underscores word'
  end.

(** [sorted(l)] for a list of [str]: ascending, by the codes of the
    characters. *)
Definition sorted_strings (l : list string) : list string := sort_by String.leb l.

(** [WordEmbedding.vocab]; the branch on [n_grams] walks through
    [self.vocab()] and sorts once more. *)
Definition vocab (emb : WordEmbedding) (n_grams : option Z) : result (list string) :=
  match n_grams with
  | Some n =>
      if negb ((1 <=? n) && (n <? 100)) then Raise ValueError
      else
        let voc := filter (fun word => count_underscores word =? n - 1)
                          (sorted_strings (vocab_keys emb)) in
        Ok (sorted_strings voc)
  | None => Ok (sorted_strings (vocab_keys emb))
  end.

(** [part in w] for two [str]s *)
Fixpoint str_contains (part w : string) : bool :=
  prefix part w
  || match w with
     | EmptyString => false
     | String _ w' => str_contains part w'
     end.

(** [WordEmbedding.vocab_containing] with [show_frequency=False] *)
Definition vocab_containing (emb : WordEmbedding) (word_part : string) : list string :=
  filter (str_contains word_part) (sorted_strings (vocab_keys emb)).

(** [WordEmbedding.vocab_containing] with [show_frequency=True] *)
Definition vocab_containing_with_frequency (emb : WordEmbedding) (word_part : string)
  : result freq_table :=
  match training_data emb with
  | None => Raise ValueError
  | Some _ =>
      subset <- mapM (fun w => f <- frequency_in_training_data emb w ;; Ok (w, f))
                     (filter (str_contains word_part) (sorted_strings (vocab_keys emb))) ;;
      Ok (sort_by freq_desc subset)
  end.

(** [WordEmbedding.difference_vectors] *)
Definition difference_vectors (emb : WordEmbedding)
  (list_of_word_pairs : list (string * string)) (normalize : bool)
  : result (list Np.vec) :=
  mapM (fun p : string * string => difference_vector emb (fst p) (snd p) normalize)
       list_of_word_pairs.

(** [WordEmbedding.centroid_of_difference_vectors] *)
Definition centroid_of_difference_vectors (emb : WordEmbedding)
  (list_of_word_pairs : list (string * string)) (normalize_diffs normalize_centroid : bool)
  : result (option Np.vec) :=
  difference_vecs <- difference_vectors emb list_of_word_pairs normalize_diffs ;;
  let centroid := Np.mean_axis0 difference_vecs in
  Ok (if normalize_centroid then option_map normalize_vector centroid else centroid).

(** [WordEmbedding.projection]; [word_pair] is a list of words of which the
    first two are used. *)
Definition projection (emb : WordEmbedding) (test_word : string) (word_pair : list string)
  : result R :=
  w0 <- getitem word_pair 0 ;;
  w1 <- getitem word_pair 1 ;;
  diff <- difference_vector emb w0 w1 true ;;
  vec <- vector emb test_word ;;
  Ok (Np.dot diff vec).

(** A row of the table of [WordEmbedding.projections]: [test], [dimension],
    [projection], and [test_freq] when a corpus is loaded. *)
Definition projections_row : Type := string * string * R * option Z.

(** [WordEmbedding.projections] *)
Definition projections (emb : WordEmbedding) (test_words : list string)
  (word_pairs : list (list string)) : result (list projections_row) :=
  result <- mapM (fun word =>
                    mapM (fun word_pair =>
                            p <- projection emb word word_pair ;;
                            w0 <- getitem word_pair 0 ;;
                            w1 <- getitem word_pair 1 ;;
                            Ok (word, (w0 ++ " - " ++ w1)%string, p))
                         word_pairs)
                 test_words ;;
  let result := concat result in
  match training_data emb with
  | None => Ok (map (fun r => (r, None)) result)
  | Some _ =>
      mapM (fun r : string * string * R =>
              f <- frequency_in_training_data emb (fst (fst r)) ;;
              Ok (r, Some f))
           result
  end.

(** [WordEmbedding.cluster_diversity]: the branch [mmd] ends without a
    [return], so the call gives [None] (here the outer [None]); the other
    value is the squared length of the centroid, possibly [nan]. *)
Definition cluster_diversity (emb : WordEmbedding) (list_of_words : list string)
  (method : string) : result (option cell) :=
  if String.eqb method "centroid_length" then
    centroid <- centroid_of_vectors emb list_of_words false ;;
    Ok (Some (option_map (fun c => Np.dot c c) centroid))
  else if String.eqb method "mmd" then Ok None
  else Raise ValueError.

(** [EmbeddingEnsemble.shared_vocab].  Python lists the resulting set in an
    order of its own; the model lists it in the order of the first
    vocabulary. *)
Definition shared_vocab (ens : EmbeddingEnsemble) : result (list string) :=
  vocabs <- mapM (fun emb => vocab emb None) (list_of_embeddings ens) ;;
  v0 <- getitem vocabs 0 ;;
  Ok (filter (fun w => forallb (str_in w) vocabs) (nodup string_dec v0)).



(** The negation of a cell; [nan] stays [nan]. *)
Definition neg_cell (c : cell) : cell := option_map Ropp c.

Definition neg_row (r : proj_row) : proj_row := (fst r, map neg_cell (snd r)).

(** A bipolar specification with its clusters in the other order. *)
Definition swap_clusters (dimensions : list (string * list cluster))
  : list (string * list cluster) :=
  map (fun d => (fst d, rev (snd d))) dimensions.

(** The entry of a frequency table for a word, 0 when there is none. *)
Fixpoint freq_get (t : freq_table) (w : string) : Z :=
  match t with
  | [] => 0
  | (k, v) :: t' => if String.eqb k w then v else freq_get t' w
  end.

(** The sum of the [Frequency] column. *)
Definition freq_total (t : freq_table) : Z := fold_right (fun row acc => snd row + acc) 0 t.

(** An embedding with n-grams in its vocabulary and a corpus. *)
Definition example_emb_ngrams : WordEmbedding :=
  {| word_vectors := [("new_york", [1; 0]%R); ("york", [0; 1]%R);
                      ("new", [1; 1]%R); ("new_york_city", [2; 1]%R)];
     training_data := Some [["new"; "york"; "new"]; ["york"]; []; ["new"]] |}.

(** The value of a call mapped by [h]; an exception passes through. *)
Definition result_map {A B : Type} (h : A -> B) (r : result A) : result B :=
  match r with
  | Ok a => Ok (h a)
  | Raise e => Raise e
  end.

(** * Properties *)

(** ** Lists, slices and enumeration *)

Lemma enum_from_bounds {A : Type} (l : list A) : forall k j x,
  In (j, x) (enum_from k l) -> k <= j < k + len l.
Proof.
  unfold len. induction l as [|y t IH]; simpl; intros k j x H.
  - contradiction.
  - destruct H as [H|H].
    + inversion H; subst. lia.
    + apply IH in H. lia.
Qed.

Lemma enumerate_bounds {A : Type} (l : list A) j x :
  In (j, x) (enumerate l) -> 0 <= j < len l.
Proof. intro H. apply enum_from_bounds in H. lia. Qed.

Lemma filter_snd_enum_from {A : Type} (p : A -> bool) (l : list A) : forall k,
  map snd (filter (fun it : Z * A => p (snd it)) (enum_from k l)) = filter p l.
Proof.
  induction l as [|x t IH]; simpl; intro k; [reflexivity|].
  destruct (p x); simpl; rewrite IH; reflexivity.
Qed.

Lemma range_of_enum_from {A : Type} (lo hi : Z) (l : list A) : forall k,
  map snd (filter (fun it : Z * A => (lo <=? fst it) && (fst it <=? hi)) (enum_from k l))
  = firstn (Z.to_nat (hi + 1 - Z.max lo k)) (skipn (Z.to_nat (lo - k)) l).
Proof.
  induction l as [|x t IH]; intro k.
  - simpl. rewrite skipn_nil, firstn_nil. reflexivity.
  - simpl enum_from. simpl filter. simpl fst.
    destruct (Z.leb_spec lo k) as [Hlo|Hlo].
    + replace (Z.to_nat (lo - k)) with 0%nat by lia. simpl skipn.
      destruct (Z.leb_spec k hi) as [Hhi|Hhi]; simpl.
      * rewrite IH.
        replace (Z.to_nat (lo - (k + 1))) with 0%nat by lia. simpl skipn.
        replace (Z.to_nat (hi + 1 - Z.max lo k))
          with (S (Z.to_nat (hi + 1 - Z.max lo (k + 1)))) by lia.
        reflexivity.
      * rewrite IH.
        replace (Z.to_nat (hi + 1 - Z.max lo (k + 1))) with 0%nat by lia.
        replace (Z.to_nat (hi + 1 - Z.max lo k)) with 0%nat by lia.
        reflexivity.
    + simpl. rewrite IH.
      replace (Z.to_nat (lo - k)) with (S (Z.to_nat (lo - (k + 1)))) by lia.
      simpl skipn.
      replace (Z.max lo (k + 1)) with (Z.max lo k) by lia.
      reflexivity.
Qed.

Lemma firstn_beyond {A : Type} (l : list A) (m p : nat) :
  (length l <= m)%nat -> (length l <= p)%nat -> firstn m l = firstn p l.
Proof. intros Hm Hp. rewrite !firstn_all2 by assumption. reflexivity. Qed.

(** Inside a sentence and for a non-negative [n], the slice that the method
    takes holds the tokens at the positions [idx - n .. idx + n]. *)
Lemma context_window_tokens (sentence : list string) (n idx : Z) :
  0 <= n -> 0 <= idx < len sentence ->
  context_window sentence n idx = join " " (tokens_around sentence idx n).
Proof.
  intros Hn Hidx. unfold context_window, tokens_around, enumerate. f_equal.
  rewrite range_of_enum_from. unfold slice, slice_bound.
  set (L := len sentence) in *.
  assert (HL : L = Z.of_nat (length sentence)) by reflexivity.
  destruct (Z.ltb_spec (idx - n) 0) as [Hs|Hs];
    destruct (Z.gtb_spec (idx + n) (L - 1)) as [Ht|Ht]; simpl Z.ltb; cbv iota.
  all: repeat match goal with
         | |- context [if ?a <? 0 then _ else _] =>
             destruct (Z.ltb_spec a 0); [lia|]
         end.
  all: replace (idx - n - 0) with (idx - n) by lia.
  - replace (Z.to_nat (Z.min 0 L)) with 0%nat by lia.
    replace (Z.to_nat (idx - n)) with 0%nat by lia.
    simpl skipn. apply firstn_beyond; lia.
  - replace (Z.to_nat (Z.min 0 L)) with 0%nat by lia.
    replace (Z.to_nat (idx - n)) with 0%nat by lia.
    f_equal. lia.
  - replace (Z.to_nat (Z.min (idx - n) L)) with (Z.to_nat (idx - n)) by lia.
    apply firstn_beyond; rewrite length_skipn; lia.
  - replace (Z.to_nat (Z.min (idx - n) L)) with (Z.to_nat (idx - n)) by lia.
    f_equal. lia.
Qed.

Lemma context_in_sentence_occurrences (word : string) (n : Z) (sentence : list string) :
  0 <= n ->
  context_in_sentence word n sentence
  = map (fun idx => join " " (tokens_around sentence idx n)) (occurrences word sentence).
Proof.
  intro Hn. unfold context_in_sentence, occurrences.
  assert (H : forall l : list (Z * string),
             (forall j x, In (j, x) l -> 0 <= j < len sentence) ->
             flat_map (fun it : Z * string =>
                         let (idx, token) := it in
                         if String.eqb word token then [context_window sentence n idx] else []) l
             = map (fun idx => join " " (tokens_around sentence idx n))
                   (map fst (filter (fun it : Z * string => String.eqb word (snd it)) l))).
  { induction l as [|[j x] t IH]; intro Hb; [reflexivity|].
    simpl. rewrite IH by (intros; eapply Hb; right; eassumption).
    destruct (String.eqb word x); simpl; [|reflexivity].
    rewrite context_window_tokens by (try assumption; eapply Hb; left; reflexivity).
    reflexivity. }
  apply H. intros j x. apply enumerate_bounds.
Qed.

Lemma count_in_document_occurrences (word : string) (document : list string) : forall counter,
  count_in_document word counter document = counter + len (occurrences word document).
Proof.
  unfold count_in_document, occurrences, enumerate, len.
  rewrite length_map.
  rewrite <- (length_map snd), (filter_snd_enum_from (String.eqb word)).
  induction document as [|x t IH]; intro c; simpl; [lia|].
  rewrite IH, (String.eqb_sym x word).
  destruct (String.eqb word x); simpl; lia.
Qed.

Lemma frequency_fold_occurrences (word : string) (corpus : list (list string)) : forall counter,
  fold_left (count_in_document word) corpus counter
  = counter + len (contexts_of_occurrences corpus word 0).
Proof.
  unfold contexts_of_occurrences, len.
  induction corpus as [|s t IH]; intro c; simpl; [lia|].
  rewrite IH, count_in_document_occurrences, length_app, length_map. unfold len. lia.
Qed.

Lemma contexts_length_any_window (corpus : list (list string)) (word : string) (n m : Z) :
  length (contexts_of_occurrences corpus word n)
  = length (contexts_of_occurrences corpus word m).
Proof.
  unfold contexts_of_occurrences.
  induction corpus as [|s t IH]; simpl; [reflexivity|].
  rewrite !length_app, !length_map, IH. reflexivity.
Qed.

(** ** Training-corpus statistics *)

Lemma init_without_corpus (fs : FileSystem) (path : string) (emb : WordEmbedding) :
  WordEmbedding_init fs path None = Ok emb -> training_data emb = None.
Proof.
  unfold WordEmbedding_init. destruct (kv_load fs path); intro H; inversion H.
  reflexivity.
Qed.

(** C7. An embedding constructed without a training corpus: the frequency of
    a word, the contexts of a word and the vocabulary by frequency all raise
    [ValueError], whatever their arguments; none returns a value. *)
Theorem corpus_statistics_need_training_data
  (fs : FileSystem) (path : string) (emb : WordEmbedding)
  (word : string) (n : Z) (first_n more_frequent_than : option Z) :
  WordEmbedding_init fs path None = Ok emb ->
  frequency_in_training_data emb word = Raise ValueError
  /\ context_in_training_data emb word n = Raise ValueError
  /\ vocab_sorted_by_frequency_in_training_data emb first_n more_frequent_than
     = Raise ValueError.
Proof.
  intro H. apply init_without_corpus in H.
  unfold frequency_in_training_data, context_in_training_data,
    vocab_sorted_by_frequency_in_training_data.
  rewrite H. repeat split.
Qed.

Lemma corpus_statistics_need_training_data_witness :
  WordEmbedding_init example_fs "a.emb" None = Ok example_emb_A
  /\ frequency_in_training_data example_emb_A "king" = Raise ValueError
  /\ context_in_training_data example_emb_A "king" 3 = Raise ValueError
  /\ vocab_sorted_by_frequency_in_training_data example_emb_A (Some 2) None
     = Raise ValueError.
Proof.
  split; [reflexivity|].
  apply (corpus_statistics_need_training_data example_fs "a.emb" example_emb_A
           "king" 3 (Some 2) None).
  reflexivity.
Defined.

(** C10. With a training corpus attached, the frequency of a word that
    occurs in no sentence is 0 and nothing is raised; the vocabulary of the
    embedding plays no part. *)
Theorem frequency_of_absent_word
  (emb : WordEmbedding) (corpus : list (list string)) (word : string) :
  training_data emb = Some corpus ->
  (forall document, In document corpus -> ~ In word document) ->
  frequency_in_training_data emb word = Ok 0.
Proof.
  intros Htd Habs. unfold frequency_in_training_data. rewrite Htd. f_equal.
  assert (H : forall c, fold_left (count_in_document word) corpus c = c).
  { clear Htd. induction corpus as [|d t IH]; intro c; simpl; [reflexivity|].
    rewrite IH by (intros; apply Habs; right; assumption).
    assert (Hd : ~ In word d) by (apply Habs; left; reflexivity).
    clear - Hd. unfold count_in_document. revert c.
    induction d as [|x d' IHd]; intro c; simpl; [reflexivity|].
    destruct (String.eqb_spec x word) as [E|E].
    - exfalso. apply Hd. left. assumption.
    - apply IHd. intro Hin. apply Hd. right. assumption. }
  apply H.
Qed.

Lemma frequency_of_absent_word_witness :
  in_vocab example_emb_corpus "throne" = false
  /\ frequency_in_training_data example_emb_corpus "throne" = Ok 0.
Proof.
  split; [reflexivity|].
  apply (frequency_of_absent_word example_emb_corpus example_corpus "throne").
  - reflexivity.
  - intros document Hin Hw. simpl in Hin.
    repeat (destruct Hin as [Hin|Hin];
            [subst document; simpl in Hw;
             repeat (destruct Hw as [Hw|Hw]; [discriminate Hw|]); exact Hw|]).
    exact Hin.
Defined.

(** C8. With a training corpus attached and a window size [n >= 0], the
    contexts of a word are, sentence by sentence and occurrence by
    occurrence, the tokens of that sentence at the positions
    [idx - n .. idx + n] that exist in it, joined by single spaces; there are
    as many strings as the word has occurrences in the corpus. *)
Theorem context_in_training_data_windows
  (emb : WordEmbedding) (corpus : list (list string)) (word : string) (n : Z) :
  training_data emb = Some corpus ->
  0 <= n ->
  context_in_training_data emb word n = Ok (contexts_of_occurrences corpus word n)
  /\ frequency_in_training_data emb word
     = Ok (len (contexts_of_occurrences corpus word n)).
Proof.
  intros Htd Hn. unfold context_in_training_data, frequency_in_training_data.
  rewrite Htd. split.
  - f_equal. unfold contexts_of_occurrences.
    induction corpus as [|s t IH] in |- *; simpl; [reflexivity|].
    rewrite IH, context_in_sentence_occurrences by assumption. reflexivity.
  - f_equal. rewrite frequency_fold_occurrences. unfold len.
    rewrite (contexts_length_any_window corpus word 0 n). lia.
Qed.

Lemma context_in_training_data_windows_witness :
  context_in_training_data example_emb_corpus "queen" 1
  = Ok ["king queen"; "the queen rules"]
  /\ frequency_in_training_data example_emb_corpus "queen" = Ok 2.
Proof.
  destruct (context_in_training_data_windows example_emb_corpus example_corpus "queen" 1
              eq_refl ltac:(lia)) as [H1 H2].
  split; [exact H1 | exact H2].
Defined.

(** *** Sorting a table *)

Lemma insert_by_perm {A : Type} (leb : A -> A -> bool) (x : A) (l : list A) :
  Permutation (insert_by leb x l) (x :: l).
Proof.
  induction l as [|y t IH]; simpl; [reflexivity|].
  destruct (leb x y); [reflexivity|].
  rewrite IH. apply perm_swap.
Qed.

Lemma sort_by_perm {A : Type} (leb : A -> A -> bool) (l : list A) :
  Permutation (sort_by leb l) l.
Proof.
  unfold sort_by. induction l as [|x t IH]; simpl; [reflexivity|].
  rewrite insert_by_perm. constructor. exact IH.
Qed.

Lemma sort_by_In {A : Type} (leb : A -> A -> bool) (l : list A) (x : A) :
  In x (sort_by leb l) <-> In x l.
Proof.
  split; apply Permutation_in; [|symmetry]; apply sort_by_perm.
Qed.

Lemma insert_freq_desc_sorted (x : string * Z) (l : freq_table) :
  most_frequent_first l -> most_frequent_first (insert_by freq_desc x l).
Proof.
  unfold most_frequent_first. induction l as [|y t IH]; intro Hs; simpl.
  - constructor; constructor.
  - inversion Hs as [|? ? Ht Hy]; subst.
    unfold freq_desc at 1. destruct (Z.leb_spec (snd y) (snd x)) as [Hle|Hlt].
    + constructor; [assumption|].
      constructor; [assumption|].
      eapply Forall_impl; [|exact Hy]. simpl. intros a Ha. lia.
    + constructor; [apply IH; assumption|].
      apply (Permutation_Forall (x := x :: t)).
      * symmetry. apply insert_by_perm.
      * constructor; [lia | assumption].
Qed.

Lemma sort_freq_desc_sorted (l : freq_table) : most_frequent_first (sort_by freq_desc l).
Proof.
  unfold sort_by. induction l as [|x t IH]; simpl.
  - constructor.
  - apply insert_freq_desc_sorted. exact IH.
Qed.

Lemma mapM_frequency (emb : WordEmbedding) (corpus : list (list string)) (ws : list string) :
  training_data emb = Some corpus ->
  mapM (frequency_in_training_data emb) ws
  = Ok (map (fun w => fold_left (count_in_document w) corpus 0) ws).
Proof.
  intro Htd. induction ws as [|w t IH]; simpl; [reflexivity|].
  rewrite IH. unfold frequency_in_training_data. rewrite Htd. reflexivity.
Qed.

(** [sort_by_frequency_in_training_data]: with a corpus attached, the given
    words come back with their frequencies, the most frequent first. *)
Lemma sort_by_frequency_most_frequent_first
  (emb : WordEmbedding) (corpus : list (list string)) (list_of_words : list string) :
  training_data emb = Some corpus ->
  exists t,
    sort_by_frequency_in_training_data emb list_of_words = Ok t
    /\ most_frequent_first t
    /\ Permutation t
         (map (fun w => (w, len (contexts_of_occurrences corpus w 0))) list_of_words).
Proof.
  intro Htd. unfold sort_by_frequency_in_training_data.
  rewrite (mapM_frequency emb corpus) by assumption. simpl.
  eexists. split; [reflexivity|]. split; [apply sort_freq_desc_sorted|].
  rewrite sort_by_perm.
  replace (combine list_of_words
             (map (fun w => fold_left (count_in_document w) corpus 0) list_of_words))
    with (map (fun w => (w, len (contexts_of_occurrences corpus w 0))) list_of_words);
    [reflexivity|].
  induction list_of_words as [|w t IH]; simpl; [reflexivity|].
  rewrite IH, frequency_fold_occurrences. reflexivity.
Qed.

(** [vocab_sorted_by_frequency_in_training_data]: a threshold of 0 is no
    threshold. *)
Lemma vocab_threshold_zero (emb : WordEmbedding) (first_n : option Z) :
  vocab_sorted_by_frequency_in_training_data emb first_n (Some 0)
  = vocab_sorted_by_frequency_in_training_data emb first_n None.
Proof. reflexivity. Qed.

(** [vocab_sorted_by_frequency_in_training_data]: every row that passes a
    threshold has a frequency strictly above it. *)
Lemma vocab_threshold_strict
  (emb : WordEmbedding) (first_n : option Z) (m : Z) (t : freq_table) (row : string * Z) :
  m <> 0 ->
  vocab_sorted_by_frequency_in_training_data emb first_n (Some m) = Ok t ->
  In row t -> m < snd row.
Proof.
  unfold vocab_sorted_by_frequency_in_training_data.
  destruct (training_data emb) as [corpus|]; [|discriminate].
  intros Hm H Hin. destruct m as [|p|p]; [contradiction| |];
    inversion H; subst; apply filter_In in Hin; destruct Hin as [_ Hgt];
    apply Z.gtb_lt in Hgt; exact Hgt.
Qed.

(** C6. On the corpus [king queen / the queen rules here], the vocabulary by
    frequency comes back in the order in which the words first occur, not
    with the most frequent word first, and its first row is not the most
    frequent word: [queen] occurs twice and [king] once. *)
Theorem vocab_by_frequency_in_corpus_order :
  vocab_sorted_by_frequency_in_training_data example_emb_corpus None None
  = Ok [("king", 1); ("queen", 2); ("the", 1); ("rules", 1); ("here", 1)]
  /\ vocab_sorted_by_frequency_in_training_data example_emb_corpus (Some 1) None
     = Ok [("king", 1)]
  /\ frequency_in_training_data example_emb_corpus "queen" = Ok 2
  /\ ~ most_frequent_first
         [("king", 1); ("queen", 2); ("the", 1); ("rules", 1); ("here", 1)].
Proof.
  repeat split.
  intro H. inversion H as [|? ? _ Hall]; subst.
  inversion Hall as [|? ? Hq _]; subst. simpl in Hq. lia.
Qed.

(** ** Construction of an ensemble *)

Lemma mapM_Ok_Forall2 {A B : Type} (f : A -> result B) (l : list A) : forall ys,
  mapM f l = Ok ys -> Forall2 (fun x y => f x = Ok y) l ys.
Proof.
  induction l as [|x t IH]; simpl; intros ys H.
  - inversion H. constructor.
  - destruct (f x) as [y|e] eqn:Hx; simpl in H; [|discriminate].
    destruct (mapM f t) as [ys'|e]; simpl in H; [|discriminate].
    inversion H; subst. constructor; [assumption|]. apply IH. reflexivity.
Qed.

Lemma mapM_Raise_only {A B : Type} (f : A -> result B) (e : exn) (l : list A) :
  (forall x e', f x = Raise e' -> e' = e) ->
  (exists x, In x l /\ f x = Raise e) ->
  mapM f l = Raise e.
Proof.
  intros Honly. induction l as [|x t IH]; simpl; intros [z [Hin Hz]].
  - contradiction.
  - destruct (f x) as [y|e'] eqn:Hx; simpl.
    + destruct Hin as [Hin|Hin]; [subst; congruence|].
      rewrite IH by (exists z; split; assumption). reflexivity.
    + f_equal. eapply Honly. eassumption.
Qed.

Lemma load_member_cases (fs : FileSystem) (path : string) :
  match kv_load fs path with
  | Some kv => load_member fs path = Ok {| word_vectors := kv; training_data := None |}
  | None => load_member fs path = Raise EmbeddingError
  end.
Proof.
  unfold load_member, WordEmbedding_init. destruct (kv_load fs path); reflexivity.
Qed.

Lemma load_member_raises_only (fs : FileSystem) (path : string) (e : exn) :
  load_member fs path = Raise e -> e = EmbeddingError.
Proof.
  pose proof (load_member_cases fs path) as H.
  destruct (kv_load fs path); rewrite H; intro E; inversion E; reflexivity.
Qed.

(** The paths that the constructor visits. *)
Lemma ensemble_paths_loaded (fs : FileSystem) (paths : list string) (ens : EmbeddingEnsemble) :
  (embs <- mapM (load_member fs) paths ;; Ok {| list_of_embeddings := embs |}) = Ok ens ->
  Forall2 (fun path emb =>
             kv_load fs path = Some (word_vectors emb) /\ training_data emb = None)
          paths (list_of_embeddings ens).
Proof.
  destruct (mapM (load_member fs) paths) as [embs|e] eqn:Hm; simpl; [|discriminate].
  intro H. inversion H; subst. simpl.
  apply mapM_Ok_Forall2 in Hm.
  eapply Forall2_impl; [|exact Hm]. simpl. intros path emb Hl.
  pose proof (load_member_cases fs path) as Hc.
  destruct (kv_load fs path); rewrite Hc in Hl; inversion Hl; subst.
  split; reflexivity.
Qed.

(** C9, the claim at an empty list of paths: no embedding is found, and
    the constructor returns an ensemble without members. *)
Lemma ensemble_of_no_path :
  EmbeddingEnsemble_init example_fs (PathList []) = Ok {| list_of_embeddings := [] |}.
Proof. reflexivity. Qed.

(** C9, as the constructor behaves.  From a prefix, it raises
    [EmbeddingError] when [glob] finds no file.  From a prefix or from a
    list, it raises [EmbeddingError] when some path fails to load, and an
    ensemble that it returns has one member per path, in order, each loaded
    from its path and without training corpus.  An empty list of paths is
    not an error. *)
Theorem ensemble_init_outcomes (fs : FileSystem) (spec : path_spec) :
  let paths := match spec with
               | PathList paths => paths
               | PathPrefix prefix => glob_glob fs (prefix ++ "*.emb")%string
               end in
  (forall prefix, spec = PathPrefix prefix -> paths = [] ->
     EmbeddingEnsemble_init fs spec = Raise EmbeddingError)
  /\ ((exists path, In path paths /\ kv_load fs path = None) ->
      EmbeddingEnsemble_init fs spec = Raise EmbeddingError)
  /\ (forall ens, EmbeddingEnsemble_init fs spec = Ok ens ->
        Forall2 (fun path emb =>
                   kv_load fs path = Some (word_vectors emb) /\ training_data emb = None)
                paths (list_of_embeddings ens))
  /\ EmbeddingEnsemble_init fs (PathList []) = Ok {| list_of_embeddings := [] |}.
Proof.
  intro paths. repeat split.
  - intros prefix Hs Hp. subst spec. unfold EmbeddingEnsemble_init.
    subst paths. rewrite Hp. reflexivity.
  - intros [path [Hin Hload]].
    assert (Hm : mapM (load_member fs) paths = Raise EmbeddingError).
    { apply mapM_Raise_only.
      - intros x e'. apply load_member_raises_only.
      - exists path. split; [assumption|].
        pose proof (load_member_cases fs path) as Hc. rewrite Hload in Hc. exact Hc. }
    unfold EmbeddingEnsemble_init. destruct spec as [l|prefix]; simpl.
    + subst paths. rewrite Hm. reflexivity.
    + subst paths. destruct (len _ =? 0); [reflexivity|]. simpl. rewrite Hm. reflexivity.
  - intros ens H. unfold EmbeddingEnsemble_init in H. destruct spec as [l|prefix]; simpl in H.
    + apply ensemble_paths_loaded. exact H.
    + destruct (len _ =? 0); [discriminate|]. apply ensemble_paths_loaded. exact H.
Qed.

Lemma ensemble_init_outcomes_witness :
  EmbeddingEnsemble_init example_fs (PathPrefix "missing/") = Raise EmbeddingError
  /\ EmbeddingEnsemble_init example_fs (PathList ["a.emb"; "c.emb"]) = Raise EmbeddingError
  /\ EmbeddingEnsemble_init example_fs (PathPrefix "")
     = Ok {| list_of_embeddings := [example_emb_A; example_emb_B] |}.
Proof.
  split; [|split].
  - apply (proj1 (ensemble_init_outcomes example_fs (PathPrefix "missing/")) "missing/");
      reflexivity.
  - apply (proj1 (proj2 (ensemble_init_outcomes example_fs (PathList ["a.emb"; "c.emb"])))).
    exists "c.emb". split; [right; left; reflexivity | reflexivity].
  - reflexivity.
Defined.

(** ** Usable words of a dimension in the members of an ensemble *)

Lemma partition_filter {A : Type} (p : A -> bool) (l : list A) :
  partition p l = (filter p l, filter (fun x => negb (p x)) l).
Proof.
  induction l as [|x t IH]; simpl; [reflexivity|].
  rewrite IH. destruct (p x); reflexivity.
Qed.

Lemma is_empty_filter_false {A : Type} (p : A -> bool) (l : list A) :
  is_empty (filter p l) = false <-> exists x, In x l /\ p x = true.
Proof.
  split.
  - destruct (filter p l) as [|x t] eqn:Hf; simpl; [discriminate|]. intros _.
    assert (Hin : In x (filter p l)) by (rewrite Hf; left; reflexivity).
    apply filter_In in Hin. exists x. exact Hin.
  - intros [x Hx]. apply filter_In in Hx.
    destruct (filter p l); [contradiction | reflexivity].
Qed.

(** On a bipolar dimension of two clusters, a member keeps of each cluster
    exactly the words of its vocabulary, in order, when each cluster has
    one; otherwise it sets no entry, raises nothing and prints that none of
    the generating words was found. *)
Lemma ens_bipolar_member_filters
  (dim_name : string) (left right : list string) (idx : Z) (emb : WordEmbedding) :
  exists notices,
    ens_bipolar_member dim_name [WordList left; WordList right] (idx, emb)
    = Ok (if is_empty (filter (in_vocab emb) left) || is_empty (filter (in_vocab emb) right)
          then None
          else Some (idx, (filter (in_vocab emb) left, filter (in_vocab emb) right)),
          notices)
    /\ (is_empty (filter (in_vocab emb) left) = true ->
        notices = [NoGeneratingWords SideLeft dim_name idx])
    /\ (is_empty (filter (in_vocab emb) left) = false ->
        is_empty (filter (in_vocab emb) right) = true ->
        In (NoGeneratingWords SideRight dim_name idx) notices).
Proof.
  unfold ens_bipolar_member. simpl. rewrite !partition_filter.
  destruct (is_empty (filter (in_vocab emb) left)) eqn:El; simpl.
  - eexists. split; [reflexivity|]. split; [reflexivity | discriminate].
  - destruct (is_empty (filter (in_vocab emb) right)) eqn:Er; simpl.
    + eexists. split; [reflexivity|]. split; [discriminate|].
      intros _ _. apply in_or_app. right. left. reflexivity.
    + eexists. split; [reflexivity|]. split; discriminate.
Qed.

(** On a unipolar dimension, the words that a member is asked for are the
    characters of the first word of the cluster. *)
Lemma ens_unipolar_member_first_word
  (dim_name w0 : string) (rest : list string) (idx : Z) (emb : WordEmbedding) :
  exists notices,
    ens_unipolar_member dim_name (w0 :: rest) (idx, emb)
    = Ok (if is_empty (filter (in_vocab emb) (chars w0)) then None
          else Some (idx, filter (in_vocab emb) (chars w0)),
          notices).
Proof.
  unfold ens_unipolar_member. simpl. rewrite partition_filter.
  destruct (is_empty (filter (in_vocab emb) (chars w0))); eexists; reflexivity.
Qed.

(** C1. The ensemble of the two example embeddings, the first with the
    vocabulary [man, woman, king] and the second with [man, woman], and the
    unipolar dimension [royal] with the cluster [king]: the first member has
    [king] in its vocabulary, yet the method keeps no word of the cluster for
    it, prints for both members that none of the generating words was found
    and reports [nan] for the score and its deviation. *)
Theorem ens_unipolar_drops_member_with_usable_cluster :
  in_vocab example_emb_A "king" = true
  /\ ens_unipolar_processed_dims example_ensemble [("royal", ["king"])]
     = Ok ([("royal", [])],
           [NoGeneratingWords SideOnly "royal" 0; NoGeneratingWords SideOnly "royal" 1])
  /\ ens_projections_to_unipolar_dimensions example_ensemble ["man"]
       [("royal", ["king"])] true
     = Ok {| ens_columns := ["test_word"; "royal"; "royal(std)"];
             ens_rows := [("man", [None; None])];
             ens_notices := [NoGeneratingWords SideOnly "royal" 0;
                             NoGeneratingWords SideOnly "royal" 1] |}.
Proof. repeat split. Qed.

(** ** The arity of a bipolar dimension *)

Lemma kv_lookup_in_vocab (kv : list (string * Np.vec)) (word : string) :
  str_in word (map fst kv) = true -> exists v, kv_lookup kv word = Ok v.
Proof.
  induction kv as [|[k v] t IH]; simpl; [discriminate|].
  rewrite (String.eqb_sym word k).
  destruct (String.eqb k word); simpl; [intros _; exists v; reflexivity | exact IH].
Qed.


Lemma vector_in_vocab (emb : WordEmbedding) (word : string) :
  in_vocab emb word = true -> exists v, vector emb word = Ok v.
Proof.
  intro H. apply kv_lookup_in_vocab in H. destruct H as [v Hv].
  unfold vector. rewrite Hv. simpl. eexists. reflexivity.
Qed.


Lemma mapM_total {A B : Type} (f : A -> result B) (l : list A) :
  (forall x, In x l -> exists y, f x = Ok y) -> exists ys, mapM f l = Ok ys.
Proof.
  induction l as [|x t IH]; simpl; intro H.
  - eexists. reflexivity.
  - destruct (H x (or_introl eq_refl)) as [y Hy]. rewrite Hy. simpl.
    destruct IH as [ys Hys]; [intros; apply H; right; assumption|].
    rewrite Hys. simpl. eexists. reflexivity.
Qed.

Lemma mapM_stops {A B : Type} (f : A -> result B) (e : exn) (before after : list A) (x : A) :
  (forall z, In z before -> exists y, f z = Ok y) ->
  f x = Raise e ->
  mapM f (before ++ x :: after) = Raise e.
Proof.
  intros Hb Hx. induction before as [|z t IH]; simpl.
  - rewrite Hx. reflexivity.
  - destruct (Hb z (or_introl eq_refl)) as [y Hy]. rewrite Hy. simpl.
    rewrite IH by (intros; apply Hb; right; assumption). reflexivity.
Qed.

Lemma centroid_of_vectors_in_vocab (emb : WordEmbedding) (ws : list string) (normalize : bool) :
  (forall w, In w ws -> in_vocab emb w = true) ->
  exists c, centroid_of_vectors emb ws normalize = Ok c.
Proof.
  intro H. unfold centroid_of_vectors.
  destruct (mapM_total (vector emb) ws) as [vs Hvs].
  - intros w Hw. apply vector_in_vocab. apply H. assumption.
  - rewrite Hvs. simpl. eexists. reflexivity.
Qed.

Lemma bipolar_cell_computable (emb : WordEmbedding) (test_vec : Np.vec)
  (normalize_before normalize_centroids : bool) (dim_clusters : list cluster) :
  computable_dimension emb dim_clusters ->
  exists r, bipolar_cell emb test_vec normalize_before normalize_centroids dim_clusters = Ok r.
Proof.
  intros [Hlen Hw]. unfold bipolar_cell. rewrite Hlen. simpl.
  destruct dim_clusters as [|c0 [|c1 [|c2 t]]];
    try (exfalso; unfold len in Hlen; cbn [length] in Hlen; lia).
  simpl.
  destruct (centroid_of_vectors_in_vocab emb (iter_cluster c0) false) as [l Hl].
  { intros w Hin. apply (Hw c0); [left; reflexivity | assumption]. }
  destruct (centroid_of_vectors_in_vocab emb (iter_cluster c1) false) as [r Hr].
  { intros w Hin. apply (Hw c1); [right; left; reflexivity | assumption]. }
  rewrite Hl. simpl. rewrite Hr. simpl. eexists. reflexivity.
Qed.

Lemma bipolar_cell_wrong_arity (emb : WordEmbedding) (test_vec : Np.vec)
  (normalize_before normalize_centroids : bool) (dim_clusters : list cluster) :
  len dim_clusters <> 2 ->
  bipolar_cell emb test_vec normalize_before normalize_centroids dim_clusters
  = Raise ValueError.
Proof.
  intro H. unfold bipolar_cell. destruct (Z.eqb_spec (len dim_clusters) 2); [contradiction|].
  reflexivity.
Qed.

(** C5, the claim at an empty list of test words: the dimension has one
    cluster, and the method of a single embedding returns an empty table
    without raising. *)
Lemma bipolar_arity_unchecked_without_test_word :
  len [WordList ["man"]] <> 2
  /\ projections_to_bipolar_dimensions example_emb_A [] [("d", [WordList ["man"]])] false true
     = Ok [].
Proof. split; [discriminate | reflexivity]. Qed.

(** The method of the ensemble accepts a dimension of three clusters: its
    test raises nothing whenever the first two items are lists. *)
Lemma ens_bipolar_check_lists (c0 c1 : list string) (more : list cluster) :
  ens_bipolar_check (WordList c0 :: WordList c1 :: more) = Ok tt.
Proof.
  unfold ens_bipolar_check. destruct (negb _); reflexivity.
Qed.

Lemma ens_bipolar_three_clusters_accepted :
  ens_bipolar_processed_dims example_ensemble
    [("d", [WordList ["man"]; WordList ["woman"]; WordList ["king"]])]
  = Ok ([("d", [(0, (["man"], ["woman"])); (1, (["man"], ["woman"]))])], []).
Proof. reflexivity. Qed.

(** C5, as the method of a single embedding behaves.  With a first test
    word of the vocabulary, a dimension whose specification has not exactly
    two items makes the call raise [ValueError], and no table is returned,
    when every dimension listed before it has two clusters of vocabulary
    words. *)
Theorem bipolar_arity_checked_at_first_test_word
  (emb : WordEmbedding) (test_word : string) (more_test : list string)
  (before after : list (string * list cluster))
  (dim_name : string) (dim_clusters : list cluster)
  (normalize_before normalize_centroids : bool) :
  in_vocab emb test_word = true ->
  len dim_clusters <> 2 ->
  Forall (fun d => computable_dimension emb (snd d)) before ->
  projections_to_bipolar_dimensions emb (test_word :: more_test)
    (before ++ (dim_name, dim_clusters) :: after) normalize_before normalize_centroids
  = Raise ValueError.
Proof.
  intros Hv Hlen Hb. unfold projections_to_bipolar_dimensions. simpl.
  destruct (vector_in_vocab emb test_word Hv) as [v Hvec]. rewrite Hvec. simpl.
  rewrite map_app. simpl.
  rewrite (mapM_stops _ ValueError).
  - reflexivity.
  - intros z Hz. apply bipolar_cell_computable.
    apply in_map_iff in Hz. destruct Hz as [d [Hd Hin]]. subst z.
    rewrite Forall_forall in Hb. apply Hb. assumption.
  - apply bipolar_cell_wrong_arity. assumption.
Qed.

Lemma bipolar_arity_checked_at_first_test_word_witness :
  projections_to_bipolar_dimensions example_emb_A ["king"; "man"]
    ([("gender", [WordList ["man"]; WordList ["woman"]])]
       ++ ("d", [WordList ["man"]; WordList ["woman"]; WordList ["king"]]) :: [])
    false true
  = Raise ValueError.
Proof.
  apply (bipolar_arity_checked_at_first_test_word example_emb_A "king" ["man"]).
  - reflexivity.
  - discriminate.
  - constructor; [|constructor]. split; [reflexivity|].
    simpl. intros c w [Hc|[Hc|[]]] Hw; subst c; simpl in Hw;
      destruct Hw as [Hw|[]]; subst w; reflexivity.
Defined.

(** ** Similarities across the ensemble *)

Lemma similarity_in_vocab (emb : WordEmbedding) (word1 word2 : string) :
  in_vocab emb word1 = true -> in_vocab emb word2 = true ->
  exists s, similarity emb word1 word2 = Ok s.
Proof.
  intros H1 H2. unfold similarity.
  destruct (vector_in_vocab emb word1 H1) as [v1 E1].
  destruct (vector_in_vocab emb word2 H2) as [v2 E2].
  rewrite E1. simpl. rewrite E2. simpl. eexists. reflexivity.
Qed.

Lemma similarities_in_vocab (emb : WordEmbedding) (pairs : list (string * string)) :
  pairs_in_vocab pairs emb -> exists df, similarities emb pairs = Ok df.
Proof.
  intro H. unfold similarities.
  match goal with |- context [mapM ?f pairs] => destruct (mapM_total f pairs) as [rs Hrs] end.
  - intros [w1 w2] Hin. destruct (H _ Hin) as [H1 H2]. simpl in H1, H2.
    destruct (similarity_in_vocab emb w1 w2 H1 H2) as [s Hs]. rewrite Hs. simpl.
    eexists. reflexivity.
  - rewrite Hrs. simpl. eexists. reflexivity.
Qed.

Lemma merge_on_words_widths (base_df : list wide_row) (df : list sim_row) (m : nat) :
  Forall (fun r : wide_row => length (snd r) = m) base_df ->
  Forall (fun r : wide_row => length (snd r) = S m) (merge_on_words base_df df).
Proof.
  intro H. unfold merge_on_words. apply Forall_forall. intros r Hr.
  apply in_flat_map in Hr. destruct Hr as [[[a1 a2] sims] [Hin Hr]].
  apply in_map_iff in Hr. destruct Hr as [r' [Hr _]]. subst r. simpl.
  rewrite Forall_forall in H. specialize (H _ Hin). simpl in H.
  rewrite length_app, H. simpl. lia.
Qed.

Lemma merge_loop_widths (pairs : list (string * string)) (members : list WordEmbedding) :
  Forall (pairs_in_vocab pairs) members ->
  forall (k : Z) (cols : list string) (rows : list wide_row) (m : nat),
    Forall (fun r : wide_row => length (snd r) = m) rows ->
    exists cols' rows',
      fold_left (merge_member pairs) (enum_from k members) (Ok (cols, rows))
      = Ok (cols', rows')
      /\ length cols' = (length cols + length members)%nat
      /\ Forall (fun r : wide_row => length (snd r) = (m + length members)%nat) rows'.
Proof.
  induction 1 as [|emb t Hemb Ht IH]; intros k cols rows m Hrows;
    cbn [enum_from fold_left length].
  - exists cols, rows. repeat split; [lia|].
    eapply Forall_impl; [|exact Hrows]. simpl. intros; lia.
  - destruct (similarities_in_vocab emb pairs Hemb) as [df Hdf].
    unfold merge_member at 2. cbn [Py.bind]. rewrite Hdf. cbn [Py.bind fst snd].
    destruct (IH (k + 1) (cols ++ [("Sim_emb" ++ str_of_Z (k + 2))%string])
                (merge_on_words rows df) (S m)) as [cols' [rows' [Hf [Hc Hr]]]].
    { apply merge_on_words_widths. assumption. }
    exists cols', rows'. split; [exact Hf|]. split.
    + rewrite Hc, length_app. simpl. lia.
    + eapply Forall_impl; [|exact Hr]. simpl. intros; lia.
Qed.

(** Up to the [STD] column, and with every word of the pairs in every
    vocabulary, an ensemble of [N >= 1] members has a table of [N + 4]
    columns whose rows hold [N] similarities, their mean, and the deviation
    of the [N + 1] numbers that the similarities and their mean make. *)
Lemma ens_similarities_table_shape (ens : EmbeddingEnsemble) (pairs : list (string * string)) :
  list_of_embeddings ens <> [] ->
  Forall (pairs_in_vocab pairs) (list_of_embeddings ens) ->
  exists t,
    ens_similarities_table ens pairs = Ok t
    /\ length (sim_columns t) = (length (list_of_embeddings ens) + 4)%nat
    /\ Forall (fun row : wide_row * cell * cell =>
                 let '(r, mean, std) := row in
                 length (snd r) = length (list_of_embeddings ens)
                 /\ mean = Np.mean (snd r)
                 /\ std = pd_std (numeric_cells (snd r) mean))
              (sim_rows t).
Proof.
  intros Hne Hall. unfold ens_similarities_table.
  destruct (list_of_embeddings ens) as [|emb0 members]; [contradiction|].
  cbn [getitem nth_error Py.bind tl].
  inversion Hall as [|? ? H0 Hm]; subst.
  destruct (similarities_in_vocab emb0 pairs H0) as [df0 Hdf0]. rewrite Hdf0.
  cbn [Py.bind]. unfold enumerate.
  destruct (merge_loop_widths pairs members Hm 0 ["Word1"; "Word2"; "Sim_emb1"]
              (map (fun r : sim_row => (fst (fst r), snd (fst r), [snd r])) df0) 1%nat)
    as [cols' [rows' [Hf [Hc Hr]]]].
  { apply Forall_forall. intros r Hin. apply in_map_iff in Hin.
    destruct Hin as [x [Hx _]]. subst r. reflexivity. }
  rewrite Hf. cbn [Py.bind fst snd]. eexists. split; [reflexivity|].
  cbn [sim_columns sim_rows]. split.
  - rewrite length_app, Hc. simpl. lia.
  - rewrite !Forall_map. eapply Forall_impl; [|exact Hr].
    intros r Hlen. simpl. repeat split. simpl in Hlen. lia.
Qed.

(** With the two example embeddings and the pair [man, woman], the table is
    built and the lookup of [training_data] then raises. *)
Lemma ens_similarities_example :
  ens_similarities example_ensemble [("man", "woman")] = Raise AttributeError.
Proof.
  destruct (ens_similarities_table_shape example_ensemble [("man", "woman")])
    as [t [Ht _]].
  - discriminate.
  - unfold pairs_in_vocab.
    constructor; [|constructor; [|constructor]];
      intros p [Hp|[]]; subst p; split; reflexivity.
  - unfold ens_similarities. rewrite Ht. reflexivity.
Qed.

(** C3. [EmbeddingEnsemble.similarities] returns no table: whatever the
    ensemble and the word pairs, the call ends in an exception, and when the
    table with its [MEAN] and [STD] columns has been built the exception is
    the [AttributeError] of the lookup of [training_data], an attribute that
    an ensemble does not have. *)
Theorem ens_similarities_raises (ens : EmbeddingEnsemble) (pairs : list (string * string)) :
  (exists e, ens_similarities ens pairs = Raise e)
  /\ (forall t, ens_similarities_table ens pairs = Ok t ->
        ens_similarities ens pairs = Raise AttributeError).
Proof.
  unfold ens_similarities.
  destruct (ens_similarities_table ens pairs) as [t|e]; simpl; split.
  - exists AttributeError. reflexivity.
  - reflexivity.
  - exists e. reflexivity.
  - discriminate.
Qed.

(** ** Mean and deviation across the ensemble *)

Lemma all_some_map_Some {A : Type} (l : list A) : all_some (map Some l) = Some l.
Proof.
  induction l as [|x t IH]; simpl; [reflexivity|]. rewrite IH. reflexivity.
Qed.

Lemma mean_cells_finite (l : list R) :
  l <> [] -> mean_cells (map Some l) = Some (Np.sum l / INR (length l))%R.
Proof.
  intro H. unfold mean_cells. rewrite all_some_map_Some.
  destruct l; [contradiction | reflexivity].
Qed.

Lemma std_cells_finite (l : list R) :
  l <> [] ->
  std_cells (map Some l)
  = Some (sqrt (Np.sum (map (fun x => (x - Np.sum l / INR (length l))
                                     * (x - Np.sum l / INR (length l))) l)
                / INR (length l)))%R.
Proof.
  intro H. unfold std_cells. rewrite all_some_map_Some.
  destruct l; [contradiction | reflexivity].
Qed.

Lemma mean_cells_single (x : R) : mean_cells [Some x] = Some x.
Proof.
  unfold mean_cells. simpl. unfold Np.mean. f_equal. simpl. field.
Qed.

Lemma std_cells_single (x : R) : std_cells [Some x] = Some 0%R.
Proof.
  unfold std_cells. simpl. unfold Np.std, Np.mean. f_equal. simpl.
  replace ((x - (x + 0) / 1) * (x - (x + 0) / 1) + 0)%R with 0%R by field.
  replace (0 / 1)%R with 0%R by field.
  apply sqrt_0.
Qed.

Lemma mapM_log_Forall2 {A B : Type} (f : A -> result (B * list notice)) (l : list A) :
  forall ys ns, mapM_log f l = Ok (ys, ns) ->
  Forall2 (fun x y => exists n, f x = Ok (y, n)) l ys.
Proof.
  induction l as [|x t IH]; simpl; intros ys ns H.
  - inversion H. constructor.
  - destruct (f x) as [[y n]|e] eqn:Hx; simpl in H; [|discriminate].
    destruct (mapM_log f t) as [[ys' ns']|e] eqn:Ht; simpl in H; [|discriminate].
    inversion H; subst. constructor; [exists n; exact Hx|].
    eapply IH. reflexivity.
Qed.

Lemma set_entries_In {A : Type} (l : list (option A)) (x : A) :
  In x (set_entries l) <-> In (Some x) l.
Proof.
  unfold set_entries. rewrite in_flat_map. split.
  - intros [[y|] [Hin Hx]]; simpl in Hx; [|contradiction].
    destruct Hx as [Hx|[]]. subst. assumption.
  - intro H. exists (Some x). split; [assumption | left; reflexivity].
Qed.

Lemma ens_row_aggregates {C : Type} (ens : EmbeddingEnsemble)
  (processed_dims : list (string * list (Z * C))) (dim_names : list string)
  (score : string -> WordEmbedding -> C -> result cell)
  (test_word : string) (row : proj_row) (ns : list notice) :
  ens_row ens processed_dims dim_names score test_word = Ok (Some row, ns) ->
  fst row = test_word /\ row_aggregates ens processed_dims dim_names score row.
Proof.
  unfold ens_row. destruct (is_empty (emb_idx_of ens test_word)); [discriminate|].
  match goal with |- context [mapM ?f dim_names] =>
    destruct (mapM f dim_names) as [cells|e] eqn:Hm end; simpl; [|discriminate].
  intro H. inversion H; subst. simpl. split; [reflexivity|].
  unfold row_aggregates. simpl.
  clear H. revert cells Hm. induction dim_names as [|d t IH]; simpl; intros cells Hm.
  - inversion Hm. exists []. split; [constructor | reflexivity].
  - destruct (dict_get processed_dims d) as [processed|e] eqn:Hd; simpl in Hm; [|discriminate].
    destruct (member_results ens (emb_idx_of ens test_word) processed (score test_word))
      as [results|e] eqn:Hr; simpl in Hm; [|discriminate].
    match type of Hm with context [mapM ?f t] =>
      destruct (mapM f t) as [cells'|e] eqn:Ht end; simpl in Hm; [|discriminate].
    inversion Hm; subst.
    destruct (IH cells' eq_refl) as [rpd [Hall Hcells]].
    exists (results :: rpd). split.
    + constructor; [|assumption]. exists processed. split; assumption.
    + simpl. rewrite Hcells. reflexivity.
Qed.

Lemma ens_finish_rows (test dim_names : list string) (rows : list (option proj_row))
  (notices : list notice) (t : ens_table) (row : proj_row) :
  ens_finish test dim_names rows notices = Ok t ->
  In row (ens_rows t) -> In (Some row) rows.
Proof.
  unfold ens_finish. destruct (is_empty test); [discriminate|].
  intro H. inversion H; subst. simpl. intro Hin.
  apply sort_by_In in Hin. apply set_entries_In. assumption.
Qed.

Lemma ens_rows_aggregates {C : Type} (ens : EmbeddingEnsemble)
  (processed_dims : list (string * list (Z * C))) (dim_names : list string)
  (score : string -> WordEmbedding -> C -> result cell)
  (test : list string) (rows : list (option proj_row)) (ns : list notice) (row : proj_row) :
  mapM_log (ens_row ens processed_dims dim_names score) test = Ok (rows, ns) ->
  In (Some row) rows ->
  In (fst row) test /\ row_aggregates ens processed_dims dim_names score row.
Proof.
  intros Hm Hin. apply mapM_log_Forall2 in Hm.
  induction Hm as [|tw r test' rows' [n Hr] _ IH]; [contradiction|].
  destruct Hin as [Hin|Hin].
  - subst r. apply ens_row_aggregates in Hr. destruct Hr as [Hf Ha].
    split; [left; symmetry; assumption | assumption].
  - destruct (IH Hin) as [Ht Ha]. split; [right; assumption | assumption].
Qed.

Lemma member_results_nil {C : Type} (ens : EmbeddingEnsemble) (processed : list (Z * C))
  (score : WordEmbedding -> C -> result cell) :
  member_results ens [] processed score = Ok [].
Proof. reflexivity. Qed.

Lemma member_results_cons {C : Type} (ens : EmbeddingEnsemble) (processed : list (Z * C))
  (score : WordEmbedding -> C -> result cell)
  (idx : Z) (emb_idx : list Z) (c : C) (emb : WordEmbedding) (r : cell) (rs : list cell) :
  idx_get processed idx = Some c ->
  getitem (list_of_embeddings ens) (Z.to_nat idx) = Ok emb ->
  score emb c = Ok r ->
  member_results ens emb_idx processed score = Ok rs ->
  member_results ens (idx :: emb_idx) processed score = Ok (r :: rs).
Proof.
  unfold member_results. intros Hc Hemb Hr Hrs. cbn [mapM].
  rewrite Hc, Hemb. cbn [Py.bind]. rewrite Hr. cbn [Py.bind].
  destruct (mapM _ emb_idx) as [rss|e]; cbn [Py.bind] in *; [|discriminate].
  inversion Hrs; subst. reflexivity.
Qed.

Lemma member_results_skip {C : Type} (ens : EmbeddingEnsemble) (processed : list (Z * C))
  (score : WordEmbedding -> C -> result cell) (idx : Z) (emb_idx : list Z) :
  idx_get processed idx = None ->
  member_results ens (idx :: emb_idx) processed score
  = member_results ens emb_idx processed score.
Proof.
  unfold member_results. intro Hc. cbn [mapM]. rewrite Hc. cbn [Py.bind].
  destruct (mapM _ emb_idx) as [rss|e]; reflexivity.
Qed.

(** *** The unit vectors of the examples *)

Lemma normalize_vector_of_norm (v : Np.vec) (c : R) :
  (0 < c)%R -> Np.dot v v = (c * c)%R -> normalize_vector v = map (fun x => x / c)%R v.
Proof.
  intros Hc Hd. unfold normalize_vector, Np.norm, Np.scale_inv.
  rewrite Hd, sqrt_square by lra. reflexivity.
Qed.

Lemma vector_of_norm (emb : WordEmbedding) (word : string) (v : Np.vec) (c : R) :
  kv_lookup (word_vectors emb) word = Ok v ->
  (0 < c)%R -> Np.dot v v = (c * c)%R ->
  vector emb word = Ok (map (fun x => x / c)%R v).
Proof.
  intros Hl Hc Hd. unfold vector. rewrite Hl. simpl.
  rewrite (normalize_vector_of_norm v c Hc Hd). reflexivity.
Qed.

Lemma vector_A_man : vector example_emb_A "man" = Ok [1; 0]%R.
Proof.
  rewrite (vector_of_norm example_emb_A "man" [1; 0]%R 1%R);
    [| reflexivity | lra | simpl; lra].
  simpl. repeat f_equal; field.
Qed.

Lemma vector_A_woman : vector example_emb_A "woman" = Ok [0; 1]%R.
Proof.
  rewrite (vector_of_norm example_emb_A "woman" [0; 1]%R 1%R);
    [| reflexivity | lra | simpl; lra].
  simpl. repeat f_equal; field.
Qed.

Lemma vector_C_man : vector example_emb_C "man" = Ok [1; 0]%R.
Proof.
  rewrite (vector_of_norm example_emb_C "man" [1; 0]%R 1%R);
    [| reflexivity | lra | simpl; lra].
  simpl. repeat f_equal; field.
Qed.

Lemma vector_C_woman : vector example_emb_C "woman" = Ok [3 / 5; 4 / 5]%R.
Proof.
  rewrite (vector_of_norm example_emb_C "woman" [3; 4]%R 5%R);
    [| reflexivity | lra | simpl; lra].
  reflexivity.
Qed.

Lemma score_A_gender :
  ens_bipolar_score "man" false example_emb_A (["man"], ["woman"]) = Ok (Some 1%R).
Proof.
  unfold ens_bipolar_score, centroid_of_vectors. cbn [mapM fst snd].
  rewrite vector_A_man, vector_A_woman. simpl. do 2 f_equal. field.
Qed.

Lemma score_C_gender :
  ens_bipolar_score "man" false example_emb_C (["man"], ["woman"]) = Ok (Some (2 / 5)%R).
Proof.
  unfold ens_bipolar_score, centroid_of_vectors. cbn [mapM fst snd].
  rewrite vector_C_man, vector_C_woman. simpl. do 2 f_equal. field.
Qed.

Lemma example_gender_results :
  member_results example_ensemble_AC [0; 1]
    [(0, (["man"], ["woman"])); (1, (["man"], ["woman"]))]
    (ens_bipolar_score "man" false)
  = Ok [Some 1%R; Some (2 / 5)%R].
Proof.
  eapply member_results_cons; [reflexivity | reflexivity | exact score_A_gender |].
  eapply member_results_cons; [reflexivity | reflexivity | exact score_C_gender |].
  apply member_results_nil.
Qed.

Lemma example_gender_mean : mean_cells [Some 1%R; Some (2 / 5)%R] = Some (7 / 10)%R.
Proof. unfold mean_cells. simpl. unfold Np.mean. f_equal. simpl. field. Qed.

Lemma example_gender_std : std_cells [Some 1%R; Some (2 / 5)%R] = Some (3 / 10)%R.
Proof.
  unfold std_cells. simpl. unfold Np.std, Np.mean. f_equal. simpl.
  apply sqrt_lem_1; [lra | lra | field].
Qed.

Lemma example_gender_sample_std :
  sample_standard_deviation [1; 2 / 5]%R <> Some (3 / 10)%R.
Proof.
  unfold sample_standard_deviation, pd_std, Np.mean. simpl. intro H.
  inversion H as [H1]. clear H.
  match type of H1 with sqrt ?x = _ =>
    assert (H2 : (sqrt x * sqrt x = 18 / 100)%R) by (rewrite sqrt_sqrt; [field | lra])
  end.
  rewrite H1 in H2. lra.
Qed.

Lemma example_gender_table :
  ens_projections_to_bipolar_dimensions example_ensemble_AC ["man"] example_gender false
  = Ok {| ens_columns := ["test_word"; "gender"; "gender(std)"];
          ens_rows := [("man", [Some (7 / 10)%R; Some (3 / 10)%R])];
          ens_notices := [] |}.
Proof.
  unfold ens_projections_to_bipolar_dimensions.
  change (ens_bipolar_processed_dims example_ensemble_AC example_gender)
    with (Ok ([("gender", [(0, (["man"], ["woman"])); (1, (["man"], ["woman"]))])],
              @nil notice)).
  cbn [Py.bind fst snd mapM_log map example_gender].
  unfold ens_row.
  change (emb_idx_of example_ensemble_AC "man") with [0; 1].
  cbn -[member_results mean_cells std_cells].
  rewrite example_gender_results. cbn -[mean_cells std_cells].
  rewrite example_gender_mean, example_gender_std. reflexivity.
Qed.

(** C2, the claim at an ensemble of two members: on the dimension [gender]
    the members score 1 and 2/5 for the test word [man]; the table reports
    the mean 7/10 and the deviation 3/10, and the sample standard deviation
    of the two scores is another number. *)
Lemma ensemble_deviation_is_not_sample_deviation :
  ens_projections_to_bipolar_dimensions example_ensemble_AC ["man"] example_gender false
  = Ok {| ens_columns := ["test_word"; "gender"; "gender(std)"];
          ens_rows := [("man", [Some (7 / 10)%R; Some (3 / 10)%R])];
          ens_notices := [] |}
  /\ member_results example_ensemble_AC (emb_idx_of example_ensemble_AC "man")
       [(0, (["man"], ["woman"])); (1, (["man"], ["woman"]))]
       (ens_bipolar_score "man" false)
     = Ok [Some 1%R; Some (2 / 5)%R]
  /\ sample_standard_deviation [1; 2 / 5]%R <> Some (3 / 10)%R.
Proof.
  split; [exact example_gender_table|].
  split; [exact example_gender_results | exact example_gender_sample_std].
Qed.

(** C2, as the two methods behave.  In a table that an ensemble projection
    returns, the cells of a row are, dimension by dimension, the mean of the
    scores of the members that have the test word and usable words for the
    dimension, and the deviation that [np.std] computes of them: the square
    root of the mean squared deviation from that mean (the divisor is the
    number of scores).  A single score [x] is reported as the mean [x] with
    the deviation 0. *)
Theorem ensemble_cells_mean_and_deviation
  (ens : EmbeddingEnsemble) (test : list string) (normalize_before : bool) :
  (forall dimensions t,
      ens_projections_to_bipolar_dimensions ens test dimensions normalize_before = Ok t ->
      exists processed_dims notices,
        ens_bipolar_processed_dims ens dimensions = Ok (processed_dims, notices)
        /\ forall row, In row (ens_rows t) ->
             In (fst row) test
             /\ row_aggregates ens processed_dims (map fst dimensions)
                  (fun test_word => ens_bipolar_score test_word normalize_before) row)
  /\ (forall dimensions t,
      ens_projections_to_unipolar_dimensions ens test dimensions normalize_before = Ok t ->
      exists processed_dims notices,
        ens_unipolar_processed_dims ens dimensions = Ok (processed_dims, notices)
        /\ forall row, In row (ens_rows t) ->
             In (fst row) test
             /\ row_aggregates ens processed_dims (map fst processed_dims)
                  (fun test_word => ens_unipolar_score test_word normalize_before) row)
  /\ (forall scores : list R, scores <> [] ->
      let n := INR (length scores) in
      let mean := (Np.sum scores / n)%R in
      mean_cells (map Some scores) = Some mean
      /\ std_cells (map Some scores)
         = Some (sqrt (Np.sum (map (fun x => (x - mean) * (x - mean)) scores) / n))%R)
  /\ (forall x : R, mean_cells [Some x] = Some x /\ std_cells [Some x] = Some 0%R).
Proof.
  split; [|split; [|split]].
  - intros dimensions t H. unfold ens_projections_to_bipolar_dimensions in H.
    destruct (ens_bipolar_processed_dims ens dimensions) as [[pd ns]|e];
      cbn [Py.bind fst snd] in H; [|discriminate].
    match type of H with context [mapM_log ?f test] =>
      destruct (mapM_log f test) as [[rows ns']|e] eqn:Hrows end;
      cbn [Py.bind fst snd] in H; [|discriminate].
    exists pd, ns. split; [reflexivity|]. intros row Hin.
    eapply ens_rows_aggregates; [exact Hrows|].
    eapply ens_finish_rows; eassumption.
  - intros dimensions t H. unfold ens_projections_to_unipolar_dimensions in H.
    destruct (ens_unipolar_processed_dims ens dimensions) as [[pd ns]|e];
      cbn [Py.bind fst snd] in H; [|discriminate].
    match type of H with context [mapM_log ?f test] =>
      destruct (mapM_log f test) as [[rows ns']|e] eqn:Hrows end;
      cbn [Py.bind fst snd] in H; [|discriminate].
    exists pd, ns. split; [reflexivity|]. intros row Hin.
    eapply ens_rows_aggregates; [exact Hrows|].
    eapply ens_finish_rows; eassumption.
  - intros scores Hne. simpl. split.
    + apply mean_cells_finite. assumption.
    + apply std_cells_finite. assumption.
  - intro x. split; [apply mean_cells_single | apply std_cells_single].
Qed.

Lemma ensemble_cells_mean_and_deviation_witness :
  row_aggregates example_ensemble_AC
    [("gender", [(0, (["man"], ["woman"])); (1, (["man"], ["woman"]))])]
    ["gender"]
    (fun test_word => ens_bipolar_score test_word false)
    ("man", [Some (7 / 10)%R; Some (3 / 10)%R]).
Proof.
  destruct (proj1 (ensemble_cells_mean_and_deviation example_ensemble_AC ["man"] false)
              example_gender _ example_gender_table)
    as [pd [ns [Hpd Hrows]]].
  inversion Hpd; subst.
  apply (Hrows ("man", [Some (7 / 10)%R; Some (3 / 10)%R])).
  left. reflexivity.
Defined.

(** ** The difference of two word vectors *)

Lemma isclose_refl (rtol atol a : R) :
  (0 <= rtol)%R -> (0 <= atol)%R -> Np.isclose rtol atol a a.
Proof.
  intros Hr Ha. unfold Np.isclose.
  replace (a - a)%R with 0%R by ring. rewrite Rabs_R0.
  pose proof (Rabs_pos a) as Hp.
  apply Rplus_le_le_0_compat; [assumption|].
  apply Rmult_le_pos; assumption.
Qed.

Lemma allclose_refl (rtol atol : R) (v : Np.vec) :
  (0 <= rtol)%R -> (0 <= atol)%R -> Np.allclose rtol atol v v.
Proof.
  intros Hr Ha. unfold Np.allclose.
  induction v as [|a t IH]; constructor; [apply isclose_refl; assumption | exact IH].
Qed.

Lemma difference_vector_cases (emb : WordEmbedding) (word1 word2 : string)
  (normalize : bool) (vec1 vec2 : Np.vec) :
  vector emb word1 = Ok vec1 -> vector emb word2 = Ok vec2 ->
  (difference_vector emb word1 word2 normalize = Raise ValueError
   <-> Np.allclose Np.default_rtol difference_atol vec1 vec2).
Proof.
  intros H1 H2. unfold difference_vector. rewrite H1. cbn [Py.bind].
  rewrite H2. cbn [Py.bind].
  destruct (Np.allclose_dec Np.default_rtol difference_atol vec1 vec2) as [Hc|Hc].
  - split; intros _; [assumption | reflexivity].
  - split; [discriminate | contradiction].
Qed.

Lemma vector_colour : vector example_emb_close "colour" = Ok [3 / 5; 4 / 5]%R.
Proof.
  rewrite (vector_of_norm example_emb_close "colour" [3; 4]%R 5%R);
    [| reflexivity | lra | simpl; lra].
  reflexivity.
Qed.

Lemma vector_color :
  vector example_emb_close "color"
  = Ok [15000100000 / 25000300001; 20000300001 / 25000300001]%R.
Proof.
  rewrite (vector_of_norm example_emb_close "color"
             [15000100000; 20000300001]%R 25000300001%R);
    [| reflexivity | lra | simpl; lra].
  reflexivity.
Qed.

(** C4, the claim at two words whose unit vectors differ by more than 1e-6
    in each component: the difference is refused with a [ValueError],
    although the vectors are not equal within the absolute tolerance
    1e-10. *)
Lemma difference_vector_refuses_distinct_vectors :
  vector example_emb_close "color"
  = Ok [15000100000 / 25000300001; 20000300001 / 25000300001]%R
  /\ vector example_emb_close "colour" = Ok [3 / 5; 4 / 5]%R
  /\ difference_vector example_emb_close "color" "colour" false = Raise ValueError
  /\ ~ Forall2 (fun a b => Rabs (a - b) <= 1 / 10000000000)%R
         [15000100000 / 25000300001; 20000300001 / 25000300001]%R [3 / 5; 4 / 5]%R.
Proof.
  split; [exact vector_color|]. split; [exact vector_colour|]. split.
  - apply (difference_vector_cases _ _ _ _ _ _ vector_color vector_colour).
    unfold Np.allclose, Np.isclose, Np.default_rtol, difference_atol.
    constructor; [|constructor; [|constructor]].
    + rewrite (Rabs_pos_eq (3 / 5)) by lra. apply Rabs_le. lra.
    + rewrite (Rabs_pos_eq (4 / 5)) by lra. apply Rabs_le. lra.
  - intro H. inversion H as [|a b u v Hab _]; subst.
    pose proof (Rle_abs (3 / 5 - 15000100000 / 25000300001)) as Hle.
    rewrite Rabs_minus_sym in Hle. lra.
Qed.

(** C4, as the method behaves.  For two words of the vocabulary, with unit
    vectors [vec1] and [vec2], [difference_vector] raises [ValueError]
    exactly when every component satisfies
    [|vec1_i - vec2_i| <= 1e-10 + 1e-5 * |vec2_i|], the test of [np.allclose]
    with the absolute tolerance of the call and the default relative
    tolerance; the difference of a word with itself is always refused. *)
Theorem difference_vector_raises_iff_allclose
  (emb : WordEmbedding) (word1 word2 : string) (normalize : bool) :
  in_vocab emb word1 = true ->
  in_vocab emb word2 = true ->
  exists vec1 vec2,
    vector emb word1 = Ok vec1
    /\ vector emb word2 = Ok vec2
    /\ (difference_vector emb word1 word2 normalize = Raise ValueError
        <-> Forall2 (fun a b =>
                       Rabs (a - b) <= 1 / 10000000000 + 1 / 100000 * Rabs b)%R
                    vec1 vec2)
    /\ difference_vector emb word1 word1 normalize = Raise ValueError.
Proof.
  intros H1 H2.
  destruct (vector_in_vocab emb word1 H1) as [vec1 E1].
  destruct (vector_in_vocab emb word2 H2) as [vec2 E2].
  exists vec1, vec2. split; [assumption|]. split; [assumption|]. split.
  - exact (difference_vector_cases emb word1 word2 normalize vec1 vec2 E1 E2).
  - apply (difference_vector_cases emb word1 word1 normalize vec1 vec1 E1 E1).
    apply allclose_refl; unfold Np.default_rtol, difference_atol; lra.
Qed.

Lemma difference_vector_raises_iff_allclose_witness :
  exists vec1 vec2,
    vector example_emb_A "man" = Ok vec1
    /\ vector example_emb_A "woman" = Ok vec2
    /\ (difference_vector example_emb_A "man" "woman" true = Raise ValueError
        <-> Forall2 (fun a b =>
                       Rabs (a - b) <= 1 / 10000000000 + 1 / 100000 * Rabs b)%R
                    vec1 vec2)
    /\ difference_vector example_emb_A "man" "man" true = Raise ValueError.
Proof.
  apply (difference_vector_raises_iff_allclose example_emb_A "man" "woman" true);
    reflexivity.
Defined.

(** ** The unipolar dimension of the example in a single embedding *)

Lemma vector_A_king : vector example_emb_A "king" = Ok [3 / 5; 4 / 5]%R.
Proof.
  rewrite (vector_of_norm example_emb_A "king" [3; 4]%R 5%R);
    [| reflexivity | lra | simpl; lra].
  reflexivity.
Qed.

(** The method of a single embedding takes the whole cluster: in the first
    example embedding the test word [man] scores 3/5 on the dimension
    [royal] of the cluster [king]. *)
Lemma unipolar_royal_in_A :
  projections_to_unipolar_dimensions example_emb_A ["man"] [("royal", ["king"])] true
  = Ok [("man", [Some (3 / 5)%R])].
Proof.
  unfold projections_to_unipolar_dimensions, centroid_of_vectors.
  cbn [mapM map snd]. rewrite vector_A_man. cbn [Py.bind mapM].
  rewrite vector_A_king. cbn [Py.bind Np.mean_axis0 fold_left length option_map].
  rewrite (normalize_vector_of_norm _ 1%R); [| lra | simpl; field].
  simpl.
  replace (1 * (3 / 5 / 1 / 1) + (0 * (4 / 5 / 1 / 1) + 0))%R with (3 / 5)%R by field.
  reflexivity.
Qed.

(** * Further properties of the two classes *)

(** ** Sorted tables *)

Section SortBy.

Context {A : Type} (leb : A -> A -> bool).
Hypothesis leb_total : forall x y, leb x y = false -> leb y x = true.

Local Abbreviation ordered := (fun x y : A => leb x y = true).

Lemma insert_by_HdRel (y x : A) (l : list A) :
  HdRel ordered y l -> ordered y x -> HdRel ordered y (insert_by leb x l).
Proof.
  intros Hl Hx. destruct l as [|z t]; simpl.
  - constructor. exact Hx.
  - destruct (leb x z); constructor; [exact Hx|].
    inversion Hl; assumption.
Qed.

Lemma insert_by_Sorted (x : A) (l : list A) :
  Sorted ordered l -> Sorted ordered (insert_by leb x l).
Proof.
  induction l as [|y t IH]; intro Hs; simpl.
  - repeat constructor.
  - inversion Hs as [|? ? Ht Hy]; subst.
    destruct (leb x y) eqn:E.
    + constructor; [assumption|]. constructor. exact E.
    + constructor; [apply IH; assumption|].
      apply insert_by_HdRel; [assumption|]. apply leb_total. exact E.
Qed.

Lemma sort_by_Sorted (l : list A) : Sorted ordered (sort_by leb l).
Proof.
  unfold sort_by. induction l as [|x t IH]; simpl.
  - constructor.
  - apply insert_by_Sorted. exact IH.
Qed.

End SortBy.

Lemma string_leb_total (x y : string) : String.leb x y = false -> String.leb y x = true.
Proof.
  intro H. destruct (String.leb_total x y) as [H'|H']; [congruence | exact H'].
Qed.

Lemma sorted_strings_Sorted (l : list string) :
  Sorted (fun a b => String.leb a b = true) (sorted_strings l).
Proof. apply sort_by_Sorted. exact string_leb_total. Qed.

Lemma sorted_strings_In (l : list string) (w : string) :
  In w (sorted_strings l) <-> In w l.
Proof. apply sort_by_In. Qed.

(** ** The vocabulary *)

(** X1. [vocab(n_grams)] raises [ValueError] exactly for an [n_grams] outside
    1..99 (100 is refused); otherwise it returns, in ascending order, the
    words of the vocabulary that have [n_grams - 1] underscores, and nothing
    else. *)
Theorem vocab_n_grams (emb : WordEmbedding) (n : Z) :
  (vocab emb (Some n) = Raise ValueError <-> (n < 1 \/ 99 < n))
  /\ (1 <= n <= 99 ->
      exists voc,
        vocab emb (Some n) = Ok voc
        /\ Sorted (fun a b => String.leb a b = true) voc
        /\ forall w, In w voc <-> (In w (vocab_keys emb) /\ count_underscores w = n - 1)).
Proof.
  unfold vocab. split.
  - destruct (Z.leb_spec 1 n); destruct (Z.ltb_spec n 100); simpl;
      split; intro H'; try discriminate; try reflexivity; lia.
  - intros [H1 H2].
    destruct (Z.leb_spec 1 n); [|lia]. destruct (Z.ltb_spec n 100); [|lia]. simpl.
    eexists. split; [reflexivity|]. split; [apply sorted_strings_Sorted|].
    intro w. rewrite sorted_strings_In, filter_In, sorted_strings_In, Z.eqb_eq.
    reflexivity.
Qed.

Lemma vocab_n_grams_witness :
  vocab example_emb_ngrams (Some 2) = Ok ["new_york"]
  /\ vocab example_emb_ngrams (Some 100) = Raise ValueError.
Proof.
  split.
  - destruct (proj2 (vocab_n_grams example_emb_ngrams 2) ltac:(lia)) as [voc [Hv _]].
    rewrite Hv. vm_compute in Hv. inversion Hv. reflexivity.
  - apply (proj1 (vocab_n_grams example_emb_ngrams 100)). right. lia.
Defined.

Lemma filter_all {A : Type} (p : A -> bool) (l : list A) :
  (forall x, p x = true) -> filter p l = l.
Proof.
  intro H. induction l as [|x t IH]; simpl; [reflexivity|].
  rewrite H, IH. reflexivity.
Qed.

Lemma str_contains_empty (w : string) : str_contains "" w = true.
Proof. destruct w; reflexivity. Qed.

Lemma str_contains_longer (part w : string) :
  str_contains part w = true -> (String.length part <= String.length w)%nat.
Proof.
  induction w as [|c w' IH]; simpl.
  - rewrite orb_false_r. destruct part; [simpl; lia | discriminate].
  - intro H. apply orb_true_iff in H. destruct H as [H|H].
    + destruct part as [|d part']; [simpl; lia|]. simpl.
      destruct (ascii_dec d c); [|discriminate].
      assert (Hp : forall p q, prefix p q = true -> (String.length p <= String.length q)%nat).
      { clear. induction p as [|a p IHp]; intros q Hq; simpl; [lia|].
        destruct q as [|b q]; [discriminate|]. simpl in Hq.
        destruct (ascii_dec a b); [|discriminate]. apply IHp in Hq. simpl. lia. }
      apply Hp in H. lia.
    + apply IH in H. lia.
Qed.

(** X2. [vocab_containing] with the empty string returns the whole sorted
    vocabulary, the list that [vocab()] returns; with any part, it returns
    only words of the vocabulary that contain the part, none shorter than
    the part, and every such word of the vocabulary. *)
Theorem vocab_containing_subset (emb : WordEmbedding) (word_part : string) :
  Ok (vocab_containing emb "") = vocab emb None
  /\ forall w,
       (In w (vocab_containing emb word_part) <->
        (In w (vocab_keys emb) /\ str_contains word_part w = true))
       /\ (In w (vocab_containing emb word_part) ->
           (String.length word_part <= String.length w)%nat).
Proof.
  unfold vocab_containing. split.
  - simpl. rewrite filter_all by apply str_contains_empty. reflexivity.
  - intro w. rewrite filter_In, sorted_strings_In. split; [reflexivity|].
    intros [_ Hc]. apply str_contains_longer. exact Hc.
Qed.

(** ** The frequency table and the counting loops *)

Lemma count_in_document_app (word : string) (d1 d2 : list string) (c : Z) :
  count_in_document word c (d1 ++ d2)
  = count_in_document word (count_in_document word c d1) d2.
Proof. unfold count_in_document. apply fold_left_app. Qed.

Lemma frequency_fold_concat (word : string) (corpus : list (list string)) : forall c,
  fold_left (count_in_document word) corpus c = count_in_document word c (concat corpus).
Proof.
  induction corpus as [|d t IH]; intro c; simpl; [reflexivity|].
  rewrite IH, count_in_document_app. reflexivity.
Qed.

Lemma count_in_document_shift (word : string) (d : list string) : forall c,
  count_in_document word c d = c + count_in_document word 0 d.
Proof.
  unfold count_in_document. induction d as [|x t IH]; intro c; simpl; [lia|].
  destruct (String.eqb x word).
  - rewrite (IH (c + 1)), (IH 1). lia.
  - apply IH.
Qed.

Lemma count_in_document_cons (word x : string) (d : list string) :
  count_in_document word 0 (x :: d)
  = (if String.eqb x word then 1 else 0) + count_in_document word 0 d.
Proof.
  change (count_in_document word 0 (x :: d))
    with (count_in_document word (if String.eqb x word then 0 + 1 else 0) d).
  rewrite count_in_document_shift. destruct (String.eqb x word); lia.
Qed.

Lemma freq_get_counter_add (w w' : string) (t : freq_table) :
  freq_get (counter_add w t) w' = freq_get t w' + (if String.eqb w w' then 1 else 0).
Proof.
  induction t as [|[k v] t' IH]; simpl.
  - destruct (String.eqb w w'); lia.
  - destruct (String.eqb_spec k w) as [E|E]; simpl.
    + subst k. destruct (String.eqb w w'); lia.
    + destruct (String.eqb_spec k w') as [E'|E'].
      * subst k. destruct (String.eqb_spec w w'); [congruence | lia].
      * exact IH.
Qed.

Lemma counter_add_keys (w : string) (t : freq_table) (k : string) :
  In k (map fst (counter_add w t)) <-> (k = w \/ In k (map fst t)).
Proof.
  induction t as [|[k' v] t' IH]; simpl.
  - intuition.
  - destruct (String.eqb_spec k' w) as [E|E]; simpl.
    + subst k'. intuition.
    + rewrite IH. intuition.
Qed.

Lemma counter_add_NoDup (w : string) (t : freq_table) :
  NoDup (map fst t) -> NoDup (map fst (counter_add w t)).
Proof.
  induction t as [|[k v] t' IH]; simpl; intro H.
  - constructor; [intros [] | constructor].
  - inversion H as [|? ? Hk Ht]; subst.
    destruct (String.eqb_spec k w) as [E|E]; simpl.
    + constructor; assumption.
    + constructor; [|apply IH; assumption].
      rewrite counter_add_keys. intros [E'|Hin]; [congruence | contradiction].
Qed.

Lemma counter_add_positive (w : string) (t : freq_table) :
  Forall (fun row => 1 <= snd row) t -> Forall (fun row => 1 <= snd row) (counter_add w t).
Proof.
  induction t as [|[k v] t' IH]; simpl; intro H.
  - constructor; [simpl; lia | constructor].
  - inversion H as [|? ? Hv Ht]; subst. simpl in Hv.
    destruct (String.eqb k w); constructor; simpl; try lia; try assumption.
    apply IH. assumption.
Qed.

Lemma counter_add_total (w : string) (t : freq_table) :
  freq_total (counter_add w t) = freq_total t + 1.
Proof.
  unfold freq_total. induction t as [|[k v] t' IH]; simpl; [lia|].
  destruct (String.eqb k w); simpl; lia.
Qed.

(** What the loop of [Counter] keeps, from any table on. *)
Lemma counter_fold_invariant (l : list string) : forall t,
  NoDup (map fst t) -> Forall (fun row => 1 <= snd row) t ->
  let t' := fold_left (fun c w => counter_add w c) l t in
  NoDup (map fst t')
  /\ Forall (fun row => 1 <= snd row) t'
  /\ (forall w, freq_get t' w = freq_get t w + count_in_document w 0 l)
  /\ freq_total t' = freq_total t + len l.
Proof.
  unfold len. induction l as [|x l' IH]; intros t Hnd Hpos; cbn [fold_left length].
  - repeat split; try assumption; intros; unfold count_in_document; simpl; lia.
  - destruct (IH (counter_add x t) (counter_add_NoDup x t Hnd) (counter_add_positive x t Hpos))
      as [H1 [H2 [H3 H4]]].
    repeat split; try assumption.
    + intro w. rewrite H3, freq_get_counter_add, (count_in_document_cons w x l'). lia.
    + rewrite H4, counter_add_total. lia.
Qed.

Lemma freq_get_In (t : freq_table) (w : string) (c : Z) :
  NoDup (map fst t) -> In (w, c) t -> freq_get t w = c.
Proof.
  induction t as [|[k v] t' IH]; simpl; intros Hnd Hin; [contradiction|].
  inversion Hnd as [|? ? Hk Ht]; subst.
  destruct Hin as [Hin|Hin].
  - inversion Hin; subst. rewrite String.eqb_refl. reflexivity.
  - destruct (String.eqb_spec k w) as [E|E].
    + subst k. exfalso. apply Hk. apply in_map_iff. exists (w, c). split; [reflexivity | assumption].
    + apply IH; assumption.
Qed.

Lemma freq_get_positive_In (t : freq_table) (w : string) :
  freq_get t w <> 0 -> In (w, freq_get t w) t.
Proof.
  induction t as [|[k v] t' IH]; simpl; intro H; [contradiction|].
  destruct (String.eqb_spec k w) as [E|E].
  - subst k. left. reflexivity.
  - right. apply IH. assumption.
Qed.

(** X3. With a training corpus attached, the unfiltered table of
    [vocab_sorted_by_frequency_in_training_data] lists every word of the
    corpus once, and only those: a row [(w, c)] is in the table exactly when
    [c >= 1] is the number that [frequency_in_training_data] returns for
    [w]; no word has two rows. *)
Theorem vocab_table_holds_frequencies
  (emb : WordEmbedding) (corpus : list (list string)) :
  training_data emb = Some corpus ->
  exists t,
    vocab_sorted_by_frequency_in_training_data emb None None = Ok t
    /\ NoDup (map fst t)
    /\ forall w c,
         In (w, c) t <-> (frequency_in_training_data emb w = Ok c /\ 1 <= c).
Proof.
  intro Htd. unfold vocab_sorted_by_frequency_in_training_data, frequency_in_training_data.
  rewrite Htd. eexists. split; [reflexivity|].
  destruct (counter_fold_invariant (concat corpus) [] (NoDup_nil _) (Forall_nil _))
    as [Hnd [Hpos [Hget _]]].
  fold (Counter (concat corpus)) in Hnd, Hpos, Hget.
  split; [exact Hnd|].
  intros w c. rewrite frequency_fold_concat. split.
  - intro Hin. rewrite Forall_forall in Hpos. pose proof (Hpos _ Hin) as Hc. simpl in Hc.
    apply (freq_get_In _ _ _ Hnd) in Hin. rewrite Hget in Hin. simpl in Hin.
    split; [f_equal; lia | exact Hc].
  - intros [Hf Hc].
    assert (Hg : freq_get (Counter (concat corpus)) w = c).
    { rewrite Hget. simpl. congruence. }
    rewrite <- Hg. apply freq_get_positive_In. lia.
Qed.

Lemma vocab_table_holds_frequencies_witness :
  exists t,
    vocab_sorted_by_frequency_in_training_data example_emb_ngrams None None = Ok t
    /\ NoDup (map fst t)
    /\ forall w c,
         In (w, c) t
         <-> (frequency_in_training_data example_emb_ngrams w = Ok c /\ 1 <= c).
Proof.
  apply (vocab_table_holds_frequencies example_emb_ngrams
           [["new"; "york"; "new"]; ["york"]; []; ["new"]]).
  reflexivity.
Defined.

(** X4. With a training corpus attached, [training_data_size] is the number
    of tokens of the corpus, and it is the sum of the [Frequency] column of
    the unfiltered table of [vocab_sorted_by_frequency_in_training_data]. *)
Theorem training_data_size_is_total_frequency
  (emb : WordEmbedding) (corpus : list (list string)) :
  training_data emb = Some corpus ->
  exists t,
    vocab_sorted_by_frequency_in_training_data emb None None = Ok t
    /\ training_data_size emb = Ok (freq_total t)
    /\ training_data_size emb = Ok (len (concat corpus)).
Proof.
  intro Htd. unfold vocab_sorted_by_frequency_in_training_data, training_data_size.
  rewrite Htd. eexists. split; [reflexivity|].
  assert (Hs : forall c, fold_left (fun counter sentence => counter + len sentence) corpus c
                         = c + len (concat corpus)).
  { unfold len. clear Htd. induction corpus as [|s t IH]; intro c; simpl; [lia|].
    rewrite IH, length_app. lia. }
  destruct (counter_fold_invariant (concat corpus) [] (NoDup_nil _) (Forall_nil _))
    as [_ [_ [_ Htot]]].
  fold (Counter (concat corpus)) in Htot.
  split; f_equal; rewrite Hs; [rewrite Htot; reflexivity | lia].
Qed.

Lemma training_data_size_is_total_frequency_witness :
  training_data_size example_emb_ngrams = Ok 5.
Proof.
  destruct (training_data_size_is_total_frequency example_emb_ngrams
              [["new"; "york"; "new"]; ["york"]; []; ["new"]] eq_refl)
    as [t [_ [_ H]]].
  exact H.
Defined.

Lemma combine_map_fst {A B : Type} (f : A -> B) (l : list A) :
  map fst (combine l (map f l)) = l.
Proof. induction l as [|x t IH]; simpl; [reflexivity|]. rewrite IH. reflexivity. Qed.

Lemma combine_map_In {A B : Type} (f : A -> B) (l : list A) (x : A) (y : B) :
  In (x, y) (combine l (map f l)) -> y = f x.
Proof.
  induction l as [|a t IH]; simpl; [contradiction|].
  intros [H|H]; [inversion H; reflexivity | apply IH; assumption].
Qed.

(** X5. With a training corpus attached, [sort_by_frequency_in_training_data]
    returns one row per given word (repeated words included), each with the
    frequency of its word, the rows with the larger frequencies first. *)
Theorem sort_by_frequency_ranks
  (emb : WordEmbedding) (corpus : list (list string)) (list_of_words : list string) :
  training_data emb = Some corpus ->
  exists t,
    sort_by_frequency_in_training_data emb list_of_words = Ok t
    /\ most_frequent_first t
    /\ Permutation (map fst t) list_of_words
    /\ forall w c, In (w, c) t -> frequency_in_training_data emb w = Ok c.
Proof.
  intro Htd. unfold sort_by_frequency_in_training_data.
  rewrite (mapM_frequency emb corpus) by assumption. cbn [Py.bind].
  eexists. split; [reflexivity|]. split; [apply sort_freq_desc_sorted|]. split.
  - rewrite (Permutation_map fst (sort_by_perm freq_desc _)).
    rewrite combine_map_fst. reflexivity.
  - intros w c Hin. apply sort_by_In in Hin. apply combine_map_In in Hin.
    subst c. unfold frequency_in_training_data. rewrite Htd. reflexivity.
Qed.

Lemma sort_by_frequency_ranks_witness :
  sort_by_frequency_in_training_data example_emb_ngrams ["york"; "city"; "new"]
  = Ok [("new", 3); ("york", 2); ("city", 0)].
Proof.
  destruct (sort_by_frequency_ranks example_emb_ngrams
              [["new"; "york"; "new"]; ["york"]; []; ["new"]]
              ["york"; "city"; "new"] eq_refl)
    as [t [Ht _]].
  rewrite Ht. vm_compute in Ht. inversion Ht. reflexivity.
Defined.

(** X6. Without a training corpus, [sort_by_frequency_in_training_data]
    raises [ValueError] for every non-empty list of words, and returns an
    empty table for the empty list: the corpus is only looked for when a
    frequency is computed. *)
Theorem sort_by_frequency_without_corpus (emb : WordEmbedding) :
  training_data emb = None ->
  sort_by_frequency_in_training_data emb [] = Ok []
  /\ forall w ws, sort_by_frequency_in_training_data emb (w :: ws) = Raise ValueError.
Proof.
  intro Htd. split; [reflexivity|]. intros w ws.
  unfold sort_by_frequency_in_training_data. cbn [mapM].
  unfold frequency_in_training_data at 1. rewrite Htd. reflexivity.
Qed.

Lemma sort_by_frequency_without_corpus_witness :
  sort_by_frequency_in_training_data example_emb_A [] = Ok []
  /\ forall w ws,
       sort_by_frequency_in_training_data example_emb_A (w :: ws) = Raise ValueError.
Proof. apply (sort_by_frequency_without_corpus example_emb_A). reflexivity. Defined.

(** *** Contexts of width 0 *)

Lemma enum_from_only_at (word : string) (idx : Z) (l : list string) : forall k,
  In (idx, word) (enum_from k l) ->
  map snd (filter (fun it : Z * string => (idx - 0 <=? fst it) && (fst it <=? idx + 0))
                  (enum_from k l))
  = [word].
Proof.
  induction l as [|x t IH]; intros k Hin; simpl in *; [contradiction|].
  destruct Hin as [Hin|Hin].
  - inversion Hin; subst.
    replace ((idx - 0 <=? idx) && (idx <=? idx + 0)) with true
      by (symmetry; apply andb_true_iff; split; apply Z.leb_le; lia).
    simpl. f_equal.
    assert (Hnone : forall l' k', idx < k' ->
              filter (fun it : Z * string => (idx - 0 <=? fst it) && (fst it <=? idx + 0))
                     (enum_from k' l') = []).
    { clear. induction l' as [|y l'' IHl]; intros k' Hk; simpl; [reflexivity|].
      destruct (Z.leb_spec k' (idx + 0)); [lia|]. rewrite andb_false_r.
      apply IHl. lia. }
    rewrite Hnone by lia. reflexivity.
  - pose proof (enum_from_bounds _ _ _ _ Hin) as Hb.
    destruct (Z.leb_spec (idx - 0) k); [lia|]. simpl.
    apply IH. assumption.
Qed.

Lemma contexts_of_width_0 (word : string) (sentence : list string) :
  context_in_sentence word 0 sentence
  = repeat word (length (occurrences word sentence)).
Proof.
  rewrite context_in_sentence_occurrences by lia.
  unfold occurrences.
  assert (H : forall l : list (Z * string),
             (forall it, In it l -> In it (enumerate sentence)) ->
             map (fun idx => join " " (tokens_around sentence idx 0))
                 (map fst (filter (fun it : Z * string => String.eqb word (snd it)) l))
             = repeat word
                 (length (map fst (filter (fun it : Z * string => String.eqb word (snd it)) l)))).
  { induction l as [|[j x] t IH]; intro Hsub; [reflexivity|].
    simpl. destruct (String.eqb_spec word x) as [E|E]; simpl.
    - rewrite IH by (intros; apply Hsub; right; assumption).
      f_equal. unfold tokens_around, enumerate.
      rewrite (enum_from_only_at word j sentence 0); [reflexivity|].
      subst x. apply (Hsub (j, word)). left. reflexivity.
    - apply IH. intros; apply Hsub; right; assumption. }
  apply H. intros it Hin. exact Hin.
Qed.

(** X7. With a training corpus attached and the window size 0, the contexts
    of a word are the word itself, as many times as
    [frequency_in_training_data] counts it. *)
Theorem contexts_of_width_0_repeat_word
  (emb : WordEmbedding) (corpus : list (list string)) (word : string) :
  training_data emb = Some corpus ->
  exists k,
    frequency_in_training_data emb word = Ok (Z.of_nat k)
    /\ context_in_training_data emb word 0 = Ok (repeat word k).
Proof.
  intro Htd. unfold frequency_in_training_data, context_in_training_data. rewrite Htd.
  exists (length (contexts_of_occurrences corpus word 0)). split.
  - rewrite frequency_fold_occurrences. reflexivity.
  - f_equal. unfold contexts_of_occurrences. clear Htd.
    induction corpus as [|s t IH]; simpl; [reflexivity|].
    rewrite IH, contexts_of_width_0, length_app, length_map, repeat_app. reflexivity.
Qed.

Lemma contexts_of_width_0_repeat_word_witness :
  exists k,
    frequency_in_training_data example_emb_ngrams "new" = Ok (Z.of_nat k)
    /\ context_in_training_data example_emb_ngrams "new" 0 = Ok (repeat "new" k).
Proof.
  apply (contexts_of_width_0_repeat_word example_emb_ngrams
           [["new"; "york"; "new"]; ["york"]; []; ["new"]]).
  reflexivity.
Defined.

(** ** Similarity *)

Lemma dot_comm (u : Np.vec) : forall v, Np.dot u v = Np.dot v u.
Proof.
  induction u as [|x u' IH]; intros [|y v']; simpl; try reflexivity.
  rewrite IH. ring.
Qed.

Lemma kv_lookup_raises_KeyError (kv : list (string * Np.vec)) (word : string) (e : exn) :
  kv_lookup kv word = Raise e -> e = KeyError.
Proof.
  induction kv as [|[k v] t IH]; simpl.
  - intro H. inversion H. reflexivity.
  - destruct (String.eqb k word); [discriminate | exact IH].
Qed.

Lemma vector_raises_KeyError (emb : WordEmbedding) (word : string) (e : exn) :
  vector emb word = Raise e -> e = KeyError.
Proof.
  unfold vector. destruct (kv_lookup (word_vectors emb) word) eqn:E; simpl; [discriminate|].
  intro H. inversion H; subst. eapply kv_lookup_raises_KeyError. eassumption.
Qed.

(** X8. [similarity] is symmetric in its two words, errors included: the
    two orders return the same number or raise the same exception. *)
Theorem similarity_symmetric (emb : WordEmbedding) (word1 word2 : string) :
  similarity emb word1 word2 = similarity emb word2 word1.
Proof.
  unfold similarity.
  destruct (vector emb word1) as [v1|e1] eqn:E1;
    destruct (vector emb word2) as [v2|e2] eqn:E2; simpl.
  - rewrite dot_comm. reflexivity.
  - reflexivity.
  - reflexivity.
  - apply vector_raises_KeyError in E1. apply vector_raises_KeyError in E2. congruence.
Qed.

Lemma dot_scale_inv (c : R) (u : Np.vec) : forall v,
  c <> 0%R ->
  Np.dot (Np.scale_inv c u) (Np.scale_inv c v) = (Np.dot u v / (c * c))%R.
Proof.
  induction u as [|x u' IH]; intros [|y v'] Hc; simpl;
    try (unfold Rdiv; rewrite Rmult_0_l; reflexivity).
  fold (Np.scale_inv c u'). fold (Np.scale_inv c v').
  rewrite IH by assumption. field. assumption.
Qed.

Lemma dot_normalize_self (v : Np.vec) :
  (0 < Np.dot v v)%R -> Np.dot (normalize_vector v) (normalize_vector v) = 1%R.
Proof.
  intro Hpos. unfold normalize_vector, Np.norm.
  assert (Hs : (0 < sqrt (Np.dot v v))%R) by (apply sqrt_lt_R0; assumption).
  rewrite dot_scale_inv by lra.
  rewrite sqrt_sqrt by lra. field. lra.
Qed.

(** X9. For a word of the vocabulary whose stored vector is not the zero
    vector, [similarity(w, w)] is 1. *)
Theorem similarity_with_itself (emb : WordEmbedding) (word : string) (v : Np.vec) :
  kv_lookup (word_vectors emb) word = Ok v ->
  (0 < Np.dot v v)%R ->
  similarity emb word word = Ok 1%R.
Proof.
  intros Hl Hpos. unfold similarity, vector. rewrite Hl. simpl.
  rewrite dot_normalize_self by assumption. reflexivity.
Qed.

Lemma similarity_with_itself_witness : similarity example_emb_A "king" "king" = Ok 1%R.
Proof.
  apply (similarity_with_itself example_emb_A "king" [3; 4]%R).
  - reflexivity.
  - simpl. lra.
Defined.

Lemma dot_self_nonneg (v : Np.vec) : (0 <= Np.dot v v)%R.
Proof.
  induction v as [|x t IH]; simpl; [lra|].
  pose proof (Rle_0_sqr x) as Hx. unfold Rsqr in Hx. lra.
Qed.

Lemma dot_sub_self (u : Np.vec) : forall v,
  length u = length v ->
  Np.dot (Np.sub u v) (Np.sub u v) = (Np.dot u u - 2 * Np.dot u v + Np.dot v v)%R.
Proof.
  induction u as [|x u' IH]; intros [|y v'] Hlen; simpl in *; try discriminate.
  - ring.
  - rewrite IH by lia. ring.
Qed.

Lemma dot_add_self (u : Np.vec) : forall v,
  length u = length v ->
  Np.dot (Np.add u v) (Np.add u v) = (Np.dot u u + 2 * Np.dot u v + Np.dot v v)%R.
Proof.
  induction u as [|x u' IH]; intros [|y v'] Hlen; simpl in *; try discriminate.
  - ring.
  - rewrite IH by lia. ring.
Qed.

Lemma dot_of_unit_vectors (u v : Np.vec) :
  length u = length v -> Np.dot u u = 1%R -> Np.dot v v = 1%R ->
  (-1 <= Np.dot u v <= 1)%R.
Proof.
  intros Hlen Hu Hv.
  pose proof (dot_self_nonneg (Np.sub u v)) as Hs.
  pose proof (dot_self_nonneg (Np.add u v)) as Ha.
  rewrite dot_sub_self in Hs by assumption.
  rewrite dot_add_self in Ha by assumption.
  lra.
Qed.

Lemma normalize_vector_length (v : Np.vec) : length (normalize_vector v) = length v.
Proof. unfold normalize_vector, Np.scale_inv. apply length_map. Qed.

(** X10. For two words of the vocabulary whose stored vectors have one
    length and are not zero vectors, [similarity] returns a number between
    -1 and 1. *)
Theorem similarity_between_minus_one_and_one
  (emb : WordEmbedding) (word1 word2 : string) (v1 v2 : Np.vec) :
  kv_lookup (word_vectors emb) word1 = Ok v1 ->
  kv_lookup (word_vectors emb) word2 = Ok v2 ->
  length v1 = length v2 ->
  (0 < Np.dot v1 v1)%R -> (0 < Np.dot v2 v2)%R ->
  exists s, similarity emb word1 word2 = Ok s /\ (-1 <= s <= 1)%R.
Proof.
  intros H1 H2 Hlen Hp1 Hp2. unfold similarity, vector. rewrite H1, H2. simpl.
  eexists. split; [reflexivity|].
  apply dot_of_unit_vectors.
  - rewrite !normalize_vector_length. assumption.
  - apply dot_normalize_self. assumption.
  - apply dot_normalize_self. assumption.
Qed.

Lemma similarity_between_minus_one_and_one_witness :
  exists s, similarity example_emb_A "king" "woman" = Ok s /\ (-1 <= s <= 1)%R.
Proof.
  apply (similarity_between_minus_one_and_one example_emb_A "king" "woman"
           [3; 4]%R [0; 1]%R); try reflexivity; simpl; lra.
Defined.

(** ** Centroids and differences *)

Lemma scale_inv_1 (v : Np.vec) : Np.scale_inv 1 v = v.
Proof.
  unfold Np.scale_inv. induction v as [|x t IH]; simpl; [reflexivity|].
  rewrite IH. f_equal. field.
Qed.

(** X11. The centroid of a single word is the vector of the word; for a word
    outside the vocabulary both raise [KeyError]. *)
Theorem centroid_of_one_word (emb : WordEmbedding) (word : string) :
  centroid_of_vectors emb [word] false = result_map Some (vector emb word).
Proof.
  unfold centroid_of_vectors. cbn [mapM].
  destruct (vector emb word) as [v|e]; simpl; [|reflexivity].
  rewrite scale_inv_1. reflexivity.
Qed.

Lemma sub_opp (u : Np.vec) : forall v, Np.sub v u = map Ropp (Np.sub u v).
Proof.
  induction u as [|x u' IH]; intros [|y v']; simpl; try reflexivity.
  rewrite IH. f_equal. ring.
Qed.

Lemma dot_opp_opp (u : Np.vec) : forall v,
  Np.dot (map Ropp u) (map Ropp v) = Np.dot u v.
Proof.
  induction u as [|x u' IH]; intros [|y v']; simpl; try reflexivity.
  rewrite IH. ring.
Qed.

Lemma dot_opp_r (u : Np.vec) : forall v, Np.dot u (map Ropp v) = (- Np.dot u v)%R.
Proof.
  induction u as [|x u' IH]; intros [|y v']; simpl; try ring.
  rewrite IH. ring.
Qed.

Lemma normalize_vector_opp (d : Np.vec) :
  normalize_vector (map Ropp d) = map Ropp (normalize_vector d).
Proof.
  unfold normalize_vector, Np.norm, Np.scale_inv.
  rewrite dot_opp_opp, !map_map. apply map_ext. intro x. unfold Rdiv. ring.
Qed.

Lemma difference_vector_swap
  (emb : WordEmbedding) (word1 word2 : string) (normalize : bool) (diff : Np.vec) :
  difference_vector emb word1 word2 normalize = Ok diff ->
  difference_vector emb word2 word1 normalize = Ok (map Ropp diff)
  \/ difference_vector emb word2 word1 normalize = Raise ValueError.
Proof.
  unfold difference_vector.
  destruct (vector emb word1) as [v1|e1]; simpl; [|discriminate].
  destruct (vector emb word2) as [v2|e2]; simpl; [|discriminate].
  destruct (Np.allclose_dec Np.default_rtol difference_atol v1 v2); [discriminate|].
  intro H. inversion H; subst. clear H.
  destruct (Np.allclose_dec Np.default_rtol difference_atol v2 v1); [right; reflexivity|].
  left. f_equal. rewrite (sub_opp v1 v2).
  destruct normalize; [apply normalize_vector_opp | reflexivity].
Qed.

(** X12. When [difference_vector(word1, word2)] returns a vector, the call
    with the words exchanged returns its negation, normalised or not, or
    raises [ValueError] (the closeness test is relative to its second
    vector); it raises nothing else. *)
Theorem difference_vector_exchanged
  (emb : WordEmbedding) (word1 word2 : string) (normalize : bool) (diff : Np.vec) :
  difference_vector emb word1 word2 normalize = Ok diff ->
  difference_vector emb word2 word1 normalize = Ok (map Ropp diff)
  \/ difference_vector emb word2 word1 normalize = Raise ValueError.
Proof. apply difference_vector_swap. Qed.

Lemma difference_vector_exchanged_witness :
  difference_vector example_emb_A "woman" "man" false = Ok (map Ropp [1; -1]%R)
  \/ difference_vector example_emb_A "woman" "man" false = Raise ValueError.
Proof.
  apply (difference_vector_exchanged example_emb_A "man" "woman" false).
  unfold difference_vector. rewrite vector_A_man, vector_A_woman. cbn [Py.bind].
  destruct (Np.allclose_dec Np.default_rtol difference_atol [1; 0]%R [0; 1]%R) as [H|H].
  - exfalso. inversion H as [|a b u v Hab _]; subst.
    unfold Np.isclose, Np.default_rtol, difference_atol in Hab.
    replace (1 - 0)%R with 1%R in Hab by ring.
    rewrite Rabs_R1, Rabs_R0 in Hab. lra.
  - simpl. repeat f_equal; ring.
Defined.

(** ** The sign of a bipolar dimension *)

Lemma mapM_raises_only {A B : Type} (f : A -> result B) (E : exn) (l : list A) (e : exn) :
  (forall x e', f x = Raise e' -> e' = E) -> mapM f l = Raise e -> e = E.
Proof.
  intro Honly. induction l as [|x t IH]; simpl; [discriminate|].
  destruct (f x) as [y|e'] eqn:Hx; simpl.
  - destruct (mapM f t) as [ys|e'']; simpl; [discriminate|].
    intro H. inversion H; subst. apply IH. reflexivity.
  - intro H. inversion H; subst. eapply Honly. eassumption.
Qed.

Lemma centroid_raises_KeyError (emb : WordEmbedding) (ws : list string) (nz : bool) (e : exn) :
  centroid_of_vectors emb ws nz = Raise e -> e = KeyError.
Proof.
  unfold centroid_of_vectors.
  destruct (mapM (vector emb) ws) as [vs|e'] eqn:Hm; simpl; [discriminate|].
  intro H. inversion H; subst.
  eapply mapM_raises_only; [|exact Hm]. intros x e'. apply vector_raises_KeyError.
Qed.

Lemma mapM_result_map {A B : Type} (f g : A -> result B) (h : B -> B) (l : list A) :
  (forall x, g x = result_map h (f x)) ->
  mapM g l = result_map (map h) (mapM f l).
Proof.
  intro H. induction l as [|x t IH]; simpl; [reflexivity|].
  rewrite H, IH. destruct (f x); simpl; [|reflexivity].
  destruct (mapM f t); reflexivity.
Qed.

Lemma mapM_map {A B C : Type} (f : B -> result C) (h : A -> B) (l : list A) :
  mapM f (map h l) = mapM (fun x => f (h x)) l.
Proof.
  induction l as [|x t IH]; simpl; [reflexivity|]. rewrite IH. reflexivity.
Qed.

Lemma dot_cell_opp (test_vec : Np.vec) (normalize_before : bool) (l r : option Np.vec) :
  dot_cell test_vec
    (if normalize_before then option_map normalize_vector (sub_cell r l) else sub_cell r l)
  = neg_cell (dot_cell test_vec
      (if normalize_before then option_map normalize_vector (sub_cell l r) else sub_cell l r)).
Proof.
  destruct l as [u|], r as [v|]; destruct normalize_before; simpl; try reflexivity.
  - rewrite (sub_opp u v), normalize_vector_opp, dot_opp_r. reflexivity.
  - rewrite (sub_opp u v), dot_opp_r. reflexivity.
Qed.

Lemma bipolar_cell_rev (emb : WordEmbedding) (test_vec : Np.vec)
  (normalize_before normalize_centroids : bool) (dim_clusters : list cluster) :
  bipolar_cell emb test_vec normalize_before normalize_centroids (rev dim_clusters)
  = result_map neg_cell
      (bipolar_cell emb test_vec normalize_before normalize_centroids dim_clusters).
Proof.
  unfold bipolar_cell.
  assert (Hlen : len (rev dim_clusters) = len dim_clusters)
    by (unfold len; rewrite length_rev; reflexivity).
  rewrite Hlen. destruct (Z.eqb_spec (len dim_clusters) 2) as [H2|H2]; simpl; [|reflexivity].
  destruct dim_clusters as [|c0 [|c1 [|c2 t]]];
    try (exfalso; unfold len in H2; cbn [length] in H2; lia).
  simpl.
  destruct (centroid_of_vectors emb (iter_cluster c0) false) as [l|e0] eqn:E0;
    destruct (centroid_of_vectors emb (iter_cluster c1) false) as [r|e1] eqn:E1;
    simpl; try reflexivity.
  - f_equal. destruct normalize_centroids; apply dot_cell_opp.
  - apply centroid_raises_KeyError in E0. apply centroid_raises_KeyError in E1. congruence.
Qed.

Lemma sort_rows_neg (data : list proj_row) :
  Permutation (sort_by rows_desc (map neg_row data))
              (map neg_row (sort_by rows_desc data)).
Proof.
  rewrite sort_by_perm. apply Permutation_map. symmetry. apply sort_by_perm.
Qed.

(** X13. Exchanging the two clusters of every bipolar dimension negates
    every score: the method of a single embedding raises the same exception
    as before, or returns the rows of the former table with all cells
    negated (in the order that the new values give). *)
Theorem bipolar_clusters_exchanged
  (emb : WordEmbedding) (test : list string) (dimensions : list (string * list cluster))
  (normalize_before normalize_centroids : bool) :
  match projections_to_bipolar_dimensions emb test dimensions
          normalize_before normalize_centroids,
        projections_to_bipolar_dimensions emb test (swap_clusters dimensions)
          normalize_before normalize_centroids
  with
  | Ok t, Ok t' => Permutation t' (map neg_row t)
  | Raise e, Raise e' => e = e'
  | _, _ => False
  end.
Proof.
  unfold projections_to_bipolar_dimensions.
  match goal with |- context [mapM ?f test] => set (row_of := f) end.
  match goal with |- context [mapM ?g test] =>
    lazymatch g with row_of => fail | _ => set (row_of' := g) end end.
  assert (Hrow : forall w, row_of' w = result_map neg_row (row_of w)).
  { intro w. unfold row_of, row_of'. destruct (vector emb w) as [tv|e]; simpl; [|reflexivity].
    unfold swap_clusters. rewrite !map_map. simpl.
    rewrite <- (map_map snd (@rev cluster)), mapM_map.
    rewrite (mapM_result_map (bipolar_cell emb tv normalize_before normalize_centroids)
               _ neg_cell).
    - destruct (mapM _ (map snd dimensions)); reflexivity.
    - intro cl. apply bipolar_cell_rev. }
  rewrite (mapM_result_map row_of row_of' neg_row test Hrow).
  destruct (mapM row_of test) as [data|e]; simpl; [|reflexivity].
  apply sort_rows_neg.
Qed.

(** ** When the unipolar projection of a single embedding returns *)







(** ** Projection on a word pair *)

Lemma difference_vector_same_word (emb : WordEmbedding) (word : string) (normalize : bool) :
  in_vocab emb word = true ->
  difference_vector emb word word normalize = Raise ValueError.
Proof.
  intro H. destruct (vector_in_vocab emb word H) as [v Hv].
  apply (difference_vector_cases emb word word normalize v v Hv Hv).
  apply allclose_refl; unfold Np.default_rtol, difference_atol; lra.
Qed.

(** X15. [projection] looks at the word pair before the test word: a pair
    with fewer than two words raises [IndexError] and a pair that repeats a
    word of the vocabulary raises [ValueError], whatever the test word is,
    in the vocabulary or not. *)
Theorem projection_pair_checked_first
  (emb : WordEmbedding) (test_word : string) :
  projection emb test_word [] = Raise IndexError
  /\ (forall w, projection emb test_word [w] = Raise IndexError)
  /\ (forall w more, in_vocab emb w = true ->
        projection emb test_word (w :: w :: more) = Raise ValueError).
Proof.
  unfold projection. split; [reflexivity|]. split; [reflexivity|].
  intros w more Hw. cbn [getitem nth_error Py.bind].
  rewrite difference_vector_same_word by assumption. reflexivity.
Qed.

Lemma projection_pair_checked_first_witness :
  in_vocab example_emb_A "throne" = false
  /\ projection example_emb_A "throne" ["king"; "king"] = Raise ValueError.
Proof.
  split; [reflexivity|].
  apply (proj2 (proj2 (projection_pair_checked_first example_emb_A "throne"))).
  reflexivity.
Defined.

(** X16. When [projection] returns a number for a pair of words, the pair
    in the other order gives the opposite number, unless its difference is
    refused with [ValueError]. *)
Theorem projection_pair_exchanged
  (emb : WordEmbedding) (test_word w0 w1 : string) (p : R) :
  projection emb test_word [w0; w1] = Ok p ->
  projection emb test_word [w1; w0] = Ok (- p)%R
  \/ projection emb test_word [w1; w0] = Raise ValueError.
Proof.
  unfold projection. cbn [getitem nth_error Py.bind].
  destruct (difference_vector emb w0 w1 true) as [d|e] eqn:Hd; cbn [Py.bind]; [|discriminate].
  destruct (vector emb test_word) as [v|e] eqn:Hv; cbn [Py.bind]; [|discriminate].
  intro H. inversion H; subst. clear H.
  destruct (difference_vector_swap emb w0 w1 true d Hd) as [Hs|Hs]; rewrite Hs;
    cbn [Py.bind].
  - left. f_equal.
    rewrite (dot_comm (map Ropp d) v), dot_opp_r, (dot_comm v d). reflexivity.
  - right. reflexivity.
Qed.

Lemma difference_A_man_woman :
  difference_vector example_emb_A "man" "woman" true
  = Ok (normalize_vector [1 - 0; 0 - 1]%R).
Proof.
  unfold difference_vector. rewrite vector_A_man, vector_A_woman. cbn [Py.bind].
  destruct (Np.allclose_dec Np.default_rtol difference_atol [1; 0]%R [0; 1]%R) as [H|H].
  - exfalso. inversion H as [|a b u v Hab _]; subst.
    unfold Np.isclose, Np.default_rtol, difference_atol in Hab.
    replace (1 - 0)%R with 1%R in Hab by ring.
    rewrite Rabs_R1, Rabs_R0 in Hab. lra.
  - reflexivity.
Qed.

Lemma projection_pair_exchanged_witness :
  exists p,
    projection example_emb_A "man" ["man"; "woman"] = Ok p
    /\ (projection example_emb_A "man" ["woman"; "man"] = Ok (- p)%R
        \/ projection example_emb_A "man" ["woman"; "man"] = Raise ValueError).
Proof.
  assert (H : projection example_emb_A "man" ["man"; "woman"]
              = Ok (Np.dot (normalize_vector [1 - 0; 0 - 1]%R) [1; 0]%R)).
  { unfold projection. cbn [getitem nth_error Py.bind].
    rewrite difference_A_man_woman. cbn [Py.bind]. rewrite vector_A_man. reflexivity. }
  eexists. split; [exact H|].
  apply (projection_pair_exchanged example_emb_A "man" "man" "woman"). exact H.
Defined.

(** ** The table of projections on word pairs *)

Lemma projections_rows_of_word (emb : WordEmbedding) (word : string)
  (word_pairs : list (list string)) (rows : list (string * string * R)) :
  mapM (fun word_pair =>
          p <- projection emb word word_pair ;;
          w0 <- getitem word_pair 0 ;;
          w1 <- getitem word_pair 1 ;;
          Ok (word, (w0 ++ " - " ++ w1)%string, p))
       word_pairs = Ok rows ->
  map (fun r : string * string * R => fst (fst r)) rows = repeat word (length word_pairs).
Proof.
  revert rows. induction word_pairs as [|wp t IH]; simpl; intros rows H.
  - inversion H. reflexivity.
  - destruct (projection emb word wp) as [p|e]; simpl in H; [|discriminate].
    destruct (getitem wp 0) as [w0|e]; simpl in H; [|discriminate].
    destruct (getitem wp 1) as [w1|e]; simpl in H; [|discriminate].
    match type of H with context [mapM ?f t] =>
      destruct (mapM f t) as [rows'|e] eqn:Ht end; simpl in H; [|discriminate].
    inversion H; subst. simpl. rewrite (IH rows' Ht). reflexivity.
Qed.

(** X17. A table that [projections] returns has one row per test word and
    word pair, the test words in the given order, each repeated once per
    pair; the rows carry the frequency of the test word exactly when a
    training corpus is attached. *)
Theorem projections_rows
  (emb : WordEmbedding) (test_words : list string) (word_pairs : list (list string))
  (rows : list projections_row) :
  projections emb test_words word_pairs = Ok rows ->
  map (fun r : projections_row => fst (fst (fst r))) rows
  = flat_map (fun w => repeat w (length word_pairs)) test_words
  /\ length rows = (length test_words * length word_pairs)%nat
  /\ Forall (fun r : projections_row =>
               match training_data emb with
               | Some _ => exists f,
                             snd r = Some f
                             /\ frequency_in_training_data emb (fst (fst (fst r))) = Ok f
               | None => snd r = None
               end) rows.
Proof.
  unfold projections.
  match goal with |- context [mapM ?f test_words] => set (rows_of := f) end.
  destruct (mapM rows_of test_words) as [result|e] eqn:Hres; cbn [Py.bind]; [|discriminate].
  assert (Htests : map (fun r : string * string * R => fst (fst r)) (concat result)
                   = flat_map (fun w => repeat w (length word_pairs)) test_words).
  { apply mapM_Ok_Forall2 in Hres. clear - Hres.
    induction Hres as [|w rs ws rss Hw _ IH]; [reflexivity|].
    simpl. rewrite map_app, IH. f_equal.
    unfold rows_of in Hw. apply projections_rows_of_word in Hw. exact Hw. }
  assert (Hlen : length (flat_map (fun w => repeat w (length word_pairs)) test_words)
                 = (length test_words * length word_pairs)%nat).
  { clear. induction test_words as [|w ws IH]; simpl; [reflexivity|].
    rewrite length_app, repeat_length, IH. reflexivity. }
  destruct (training_data emb) as [corpus|] eqn:Htd.
  - intro H.
    assert (Hrows : Forall2 (fun (r : string * string * R) (row : projections_row) =>
                       fst row = r
                       /\ exists f,
                            snd row = Some f
                            /\ frequency_in_training_data emb (fst (fst r)) = Ok f)
                      (concat result) rows).
    { apply mapM_Ok_Forall2 in H. eapply Forall2_impl; [|exact H].
      intros r row Hr. simpl in Hr.
      destruct (frequency_in_training_data emb (fst (fst r))) as [f|e];
        simpl in Hr; [|discriminate].
      inversion Hr; subst. split; [reflexivity|]. exists f. split; reflexivity. }
    assert (Hfst : map fst rows = concat result).
    { clear - Hrows. induction Hrows as [|r row rs rows' [Hr _] _ IH]; [reflexivity|].
      simpl. rewrite Hr, IH. reflexivity. }
    split; [|split].
    + rewrite <- Htests, <- Hfst, map_map. reflexivity.
    + rewrite <- Hlen, <- Htests, length_map, <- Hfst, length_map. reflexivity.
    + clear - Hrows. induction Hrows as [|r row rs rows' [Hr Hf] _ IH]; constructor.
      * rewrite Hr. exact Hf.
      * exact IH.
  - intro H. inversion H; subst. clear H. split; [|split].
    + rewrite map_map. exact Htests.
    + rewrite length_map, <- Hlen, <- Htests, length_map. reflexivity.
    + apply Forall_forall. intros r Hr. apply in_map_iff in Hr.
      destruct Hr as [x [Hx _]]. subst r. reflexivity.
Qed.

Lemma projection_A_man_on_man_woman :
  projection example_emb_A "man" ["man"; "woman"]
  = Ok (Np.dot (normalize_vector [1 - 0; 0 - 1]%R) [1; 0]%R).
Proof.
  unfold projection. cbn [getitem nth_error Py.bind].
  rewrite difference_A_man_woman. cbn [Py.bind]. rewrite vector_A_man. reflexivity.
Qed.

Lemma projections_rows_witness :
  exists rows,
    projections example_emb_A ["man"] [["man"; "woman"]] = Ok rows
    /\ map (fun r : projections_row => fst (fst (fst r))) rows = ["man"]
    /\ length rows = 1%nat.
Proof.
  assert (H : projections example_emb_A ["man"] [["man"; "woman"]]
              = Ok [("man", "man - woman",
                     Np.dot (normalize_vector [1 - 0; 0 - 1]%R) [1; 0]%R, None)]).
  { unfold projections. cbn [mapM]. rewrite projection_A_man_on_man_woman. reflexivity. }
  destruct (projections_rows example_emb_A ["man"] [["man"; "woman"]] _ H) as [H1 [H2 _]].
  eexists. split; [exact H|]. split; [exact H1 | exact H2].
Defined.

(** ** Diversity of a cluster *)

(** X18. [cluster_diversity] raises [ValueError] for every method other than
    [centroid_length] and [mmd], and for [mmd] it returns [None] without
    looking at the words, which need not be in the vocabulary.  For
    [centroid_length] an exception can only be a [KeyError], a number that
    is returned is not negative, and for a single word of the vocabulary
    whose stored vector is not zero it is 1. *)
Theorem cluster_diversity_outcomes (emb : WordEmbedding) (list_of_words : list string) :
  (forall method,
      method <> "centroid_length" -> method <> "mmd" ->
      cluster_diversity emb list_of_words method = Raise ValueError)
  /\ cluster_diversity emb list_of_words "mmd" = Ok None
  /\ (forall e, cluster_diversity emb list_of_words "centroid_length" = Raise e ->
        e = KeyError)
  /\ (forall x, cluster_diversity emb list_of_words "centroid_length" = Ok (Some (Some x)) ->
        (0 <= x)%R)
  /\ (forall word v,
        kv_lookup (word_vectors emb) word = Ok v -> (0 < Np.dot v v)%R ->
        cluster_diversity emb [word] "centroid_length" = Ok (Some (Some 1%R))).
Proof.
  split; [|split; [|split; [|split]]].
  - intros method H1 H2. unfold cluster_diversity.
    destruct (String.eqb_spec method "centroid_length"); [contradiction|].
    destruct (String.eqb_spec method "mmd"); [contradiction | reflexivity].
  - reflexivity.
  - intros e H. unfold cluster_diversity in H. cbn [String.eqb Ascii.eqb Bool.eqb] in H.
    destruct (centroid_of_vectors emb list_of_words false) as [c|e'] eqn:E;
      cbn [Py.bind] in H; [discriminate|].
    inversion H; subst. eapply centroid_raises_KeyError. eassumption.
  - intros x H. unfold cluster_diversity in H. cbn [String.eqb Ascii.eqb Bool.eqb] in H.
    destruct (centroid_of_vectors emb list_of_words false) as [[c|]|e'];
      cbn [Py.bind option_map] in H; try discriminate.
    inversion H; subst. apply dot_self_nonneg.
  - intros word v Hl Hpos. unfold cluster_diversity, centroid_of_vectors, vector.
    cbn [String.eqb Ascii.eqb Bool.eqb mapM]. rewrite Hl.
    cbn [Py.bind Np.mean_axis0 fold_left length option_map].
    change (INR 1) with 1%R. rewrite scale_inv_1, dot_normalize_self by assumption.
    reflexivity.
Qed.

Lemma cluster_diversity_outcomes_witness :
  cluster_diversity example_emb_A ["throne"] "variance" = Raise ValueError
  /\ cluster_diversity example_emb_A ["throne"] "mmd" = Ok None
  /\ cluster_diversity example_emb_A ["king"] "centroid_length" = Ok (Some (Some 1%R)).
Proof.
  split; [|split].
  - apply (proj1 (cluster_diversity_outcomes example_emb_A ["throne"]) "variance");
      discriminate.
  - apply (proj1 (proj2 (cluster_diversity_outcomes example_emb_A ["throne"]))).
  - apply (proj2 (proj2 (proj2 (proj2 (cluster_diversity_outcomes example_emb_A []))))
             "king" [3; 4]%R).
    + reflexivity.
    + simpl. lra.
Defined.

(** ** Methods of the ensemble that read an attribute it does not have *)

Lemma similarity_raises_KeyError (emb : WordEmbedding) (word1 word2 : string) (e : exn) :
  similarity emb word1 word2 = Raise e -> e = KeyError.
Proof.
  unfold similarity.
  destruct (vector emb word1) as [v1|e1] eqn:E1; cbn [Py.bind].
  - destruct (vector emb word2) as [v2|e2] eqn:E2; cbn [Py.bind]; [discriminate|].
    intro H. inversion H; subst. eapply vector_raises_KeyError. eassumption.
  - intro H. inversion H; subst. eapply vector_raises_KeyError. eassumption.
Qed.



(** ** The shared vocabulary *)

Lemma forallb_str_in_vocabs (w : string) (embs : list WordEmbedding) :
  forallb (str_in w) (map (fun emb => sorted_strings (vocab_keys emb)) embs) = true
  <-> Forall (fun emb => in_vocab emb w = true) embs.
Proof.
  induction embs as [|emb t IH]; simpl.
  - split; [constructor | reflexivity].
  - rewrite andb_true_iff, IH. clear IH.
    assert (Hs : str_in w (sorted_strings (vocab_keys emb)) = true <-> in_vocab emb w = true).
    { unfold in_vocab, str_in. rewrite !existsb_exists.
      split; intros [x [Hin Hx]]; exists x; (split; [|assumption]);
        apply sorted_strings_In; assumption. }
    rewrite Hs. split.
    + intros [H1 H2]. constructor; assumption.
    + intro H. inversion H; subst. split; assumption.
Qed.

Lemma mapM_vocab_None (embs : list WordEmbedding) :
  mapM (fun emb => vocab emb None) embs
  = Ok (map (fun emb => sorted_strings (vocab_keys emb)) embs).
Proof.
  induction embs as [|emb t IH]; cbn [mapM map]; [reflexivity|]. rewrite IH. reflexivity.
Qed.

(** X20. [shared_vocab] raises [IndexError] for an ensemble without members;
    otherwise it returns a list without repetition that holds exactly the
    words that every member has in its vocabulary. *)
Theorem shared_vocab_is_intersection (ens : EmbeddingEnsemble) :
  (list_of_embeddings ens = [] -> shared_vocab ens = Raise IndexError)
  /\ (list_of_embeddings ens <> [] ->
      exists shared,
        shared_vocab ens = Ok shared
        /\ NoDup shared
        /\ forall w, In w shared
                     <-> Forall (fun emb => in_vocab emb w = true) (list_of_embeddings ens)).
Proof.
  unfold shared_vocab. rewrite mapM_vocab_None. cbn [Py.bind]. split.
  - intro H. rewrite H. reflexivity.
  - intro Hne. destruct (list_of_embeddings ens) as [|emb0 embs]; [contradiction|].
    cbn [map getitem nth_error Py.bind].
    eexists. split; [reflexivity|]. split.
    + apply NoDup_filter. apply NoDup_nodup.
    + intro w. rewrite filter_In, nodup_In, sorted_strings_In.
      change (sorted_strings (vocab_keys emb0)
              :: map (fun emb => sorted_strings (vocab_keys emb)) embs)
        with (map (fun emb => sorted_strings (vocab_keys emb)) (emb0 :: embs)).
      rewrite forallb_str_in_vocabs. split.
      * intros [_ H]. exact H.
      * intro H. split; [|exact H]. inversion H as [|? ? H0 _]; subst.
        unfold in_vocab, str_in in H0. apply existsb_exists in H0.
        destruct H0 as [x [Hin Hx]]. apply String.eqb_eq in Hx. subst x. exact Hin.
Qed.

Lemma shared_vocab_is_intersection_witness :
  exists shared,
    shared_vocab example_ensemble = Ok shared
    /\ NoDup shared
    /\ forall w, In w shared
                 <-> Forall (fun emb => in_vocab emb w = true)
                            (list_of_embeddings example_ensemble).
Proof.
  apply (proj2 (shared_vocab_is_intersection example_ensemble)). discriminate.
Defined.

(** ** Test words and rows of the ensemble projections *)

Lemma enum_from_In {A : Type} (l : list A) (x : A) : forall k,
  In x l <-> exists i, In (i, x) (enum_from k l).
Proof.
  induction l as [|y t IH]; intro k; simpl.
  - split; [contradiction | intros [i []]].
  - rewrite (IH (k + 1)). split.
    + intros [H|[i H]]; [subst; exists k; left; reflexivity | exists i; right; assumption].
    + intros [i [H|H]]; [inversion H; left; reflexivity | right; exists i; assumption].
Qed.

Lemma emb_idx_of_empty (ens : EmbeddingEnsemble) (test_word : string) :
  emb_idx_of ens test_word = []
  <-> forall emb, In emb (list_of_embeddings ens) -> in_vocab emb test_word = false.
Proof.
  unfold emb_idx_of, enumerate. split.
  - intros H emb Hin. apply (enum_from_In _ _ 0) in Hin. destruct Hin as [i Hi].
    destruct (in_vocab emb test_word) eqn:E; [|reflexivity].
    assert (Hf : In (i, emb)
                   (filter (fun it : Z * WordEmbedding => in_vocab (snd it) test_word)
                           (enum_from 0 (list_of_embeddings ens))))
      by (apply filter_In; split; assumption).
    apply (in_map fst) in Hf. rewrite H in Hf. contradiction.
  - intro H.
    destruct (filter _ _) as [|[i emb] t] eqn:Hf; [reflexivity|]. exfalso.
    assert (Hin : In (i, emb)
                    (filter (fun it : Z * WordEmbedding => in_vocab (snd it) test_word)
                            (enum_from 0 (list_of_embeddings ens))))
      by (rewrite Hf; left; reflexivity).
    apply filter_In in Hin. destruct Hin as [Hin Hv]. simpl in Hv.
    rewrite (H emb) in Hv; [discriminate|].
    apply (enum_from_In _ _ 0). exists i. assumption.
Qed.

Lemma ens_row_of_unknown_word {C : Type} (ens : EmbeddingEnsemble)
  (processed_dims : list (string * list (Z * C))) (dim_names : list string)
  (score : string -> WordEmbedding -> C -> result cell) (test_word : string) :
  emb_idx_of ens test_word = [] ->
  ens_row ens processed_dims dim_names score test_word
  = Ok (None, [TestWordInNoEmbedding test_word]).
Proof. intro H. unfold ens_row. rewrite H. reflexivity. Qed.

Lemma ens_row_of_known_word {C : Type} (ens : EmbeddingEnsemble)
  (processed_dims : list (string * list (Z * C))) (dim_names : list string)
  (score : string -> WordEmbedding -> C -> result cell) (test_word : string)
  (row : proj_row) (ns : list notice) :
  ens_row ens processed_dims dim_names score test_word = Ok (Some row, ns) ->
  fst row = test_word /\ emb_idx_of ens test_word <> [].
Proof.
  unfold ens_row. destruct (emb_idx_of ens test_word) as [|i t]; simpl; [discriminate|].
  match goal with |- context [mapM ?f dim_names] => destruct (mapM f dim_names) end;
    simpl; [|discriminate].
  intro H. inversion H; subst. split; [reflexivity | discriminate].
Qed.

Lemma mapM_log_notices {A B : Type} (f : A -> result (B * list notice)) (l : list A)
  (ys : list B) (ns : list notice) (x : A) (y : B) (n : list notice) :
  mapM_log f l = Ok (ys, ns) -> In x l -> f x = Ok (y, n) -> incl n ns.
Proof.
  revert ys ns. induction l as [|a t IH]; simpl; intros ys ns H Hin Hx; [contradiction|].
  destruct (f a) as [[y' n']|e] eqn:Ha; simpl in H; [|discriminate].
  destruct (mapM_log f t) as [[ys' ns']|e] eqn:Ht; simpl in H; [|discriminate].
  inversion H; subst. destruct Hin as [Hin|Hin].
  - subst a. rewrite Hx in Ha. inversion Ha; subst. apply incl_appl. apply incl_refl.
  - apply incl_appr. eapply IH; [reflexivity | assumption | exact Hx].
Qed.

(** What both ensemble projections do with their test words. *)
Lemma ens_rows_test_words {C : Type} (ens : EmbeddingEnsemble)
  (processed_dims : list (string * list (Z * C))) (dim_names dims : list string)
  (score : string -> WordEmbedding -> C -> result cell)
  (test : list string) (rows : list (option proj_row)) (ns ns0 : list notice)
  (t : ens_table) :
  mapM_log (ens_row ens processed_dims dim_names score) test = Ok (rows, ns) ->
  ens_finish test dims rows (ns0 ++ ns) = Ok t ->
  (forall row, In row (ens_rows t) ->
     In (fst row) test
     /\ exists emb, In emb (list_of_embeddings ens) /\ in_vocab emb (fst row) = true)
  /\ (forall w, In w test ->
        (forall emb, In emb (list_of_embeddings ens) -> in_vocab emb w = false) ->
        In (TestWordInNoEmbedding w) (ens_notices t)).
Proof.
  intros Hm Hf. split.
  - intros row Hin. pose proof (ens_finish_rows _ _ _ _ _ _ Hf Hin) as Hsome.
    apply mapM_log_Forall2 in Hm. clear - Hm Hsome.
    induction Hm as [|tw r test' rows' [n Hr] _ IH]; [contradiction|].
    destruct Hsome as [Hs|Hs].
    + subst r. apply ens_row_of_known_word in Hr. destruct Hr as [Hfst Hne].
      split; [left; symmetry; assumption|].
      destruct (emb_idx_of ens tw) as [|i l] eqn:E; [contradiction|].
      rewrite Hfst.
      assert (Hnot : ~ (forall emb, In emb (list_of_embeddings ens) ->
                                    in_vocab emb tw = false)).
      { intro Hall. apply emb_idx_of_empty in Hall. congruence. }
      assert (Hex : existsb (fun emb => in_vocab emb tw) (list_of_embeddings ens) = true).
      { destruct (existsb (fun emb => in_vocab emb tw) (list_of_embeddings ens)) eqn:Ee;
          [reflexivity|]. exfalso. apply Hnot. intros emb He.
        destruct (in_vocab emb tw) eqn:Ev; [|reflexivity].
        assert (existsb (fun emb => in_vocab emb tw) (list_of_embeddings ens) = true)
          by (apply existsb_exists; exists emb; split; assumption).
        congruence. }
      apply existsb_exists in Hex. exact Hex.
    + destruct (IH Hs) as [H1 H2]. split; [right; assumption | assumption].
  - intros w Hin Hnone. apply emb_idx_of_empty in Hnone.
    pose proof (ens_row_of_unknown_word ens processed_dims dim_names score w Hnone) as Hr.
    pose proof (mapM_log_notices _ _ _ _ _ _ _ Hm Hin Hr) as Hincl.
    unfold ens_finish in Hf. destruct (is_empty test); [discriminate|].
    inversion Hf; subst. simpl. apply in_or_app. right.
    apply Hincl. left. reflexivity.
Qed.

(** X21. In a table that an ensemble projection returns, bipolar or
    unipolar, every row belongs to a test word that some member has in its
    vocabulary; a test word that no member has gets no row, and the notice
    that it was removed is printed. *)
Theorem ensemble_drops_unknown_test_words
  (ens : EmbeddingEnsemble) (test : list string) (normalize_before : bool)
  (t : ens_table) :
  (exists dimensions,
      ens_projections_to_bipolar_dimensions ens test dimensions normalize_before = Ok t)
  \/ (exists dimensions,
      ens_projections_to_unipolar_dimensions ens test dimensions normalize_before = Ok t) ->
  (forall row, In row (ens_rows t) ->
     In (fst row) test
     /\ exists emb, In emb (list_of_embeddings ens) /\ in_vocab emb (fst row) = true)
  /\ (forall w, In w test ->
        (forall emb, In emb (list_of_embeddings ens) -> in_vocab emb w = false) ->
        In (TestWordInNoEmbedding w) (ens_notices t)
        /\ ~ In w (map fst (ens_rows t))).
Proof.
  intro H.
  assert (Hboth :
    (forall row, In row (ens_rows t) ->
       In (fst row) test
       /\ exists emb, In emb (list_of_embeddings ens) /\ in_vocab emb (fst row) = true)
    /\ (forall w, In w test ->
          (forall emb, In emb (list_of_embeddings ens) -> in_vocab emb w = false) ->
          In (TestWordInNoEmbedding w) (ens_notices t))).
  { destruct H as [[dimensions H]|[dimensions H]].
    - unfold ens_projections_to_bipolar_dimensions in H.
      destruct (ens_bipolar_processed_dims ens dimensions) as [[pd ns0]|e];
        cbn [Py.bind fst snd] in H; [|discriminate].
      match type of H with context [mapM_log ?f test] =>
        destruct (mapM_log f test) as [[rows ns]|e] eqn:Hrows end;
        cbn [Py.bind fst snd] in H; [|discriminate].
      eapply ens_rows_test_words; eassumption.
    - unfold ens_projections_to_unipolar_dimensions in H.
      destruct (ens_unipolar_processed_dims ens dimensions) as [[pd ns0]|e];
        cbn [Py.bind fst snd] in H; [|discriminate].
      match type of H with context [mapM_log ?f test] =>
        destruct (mapM_log f test) as [[rows ns]|e] eqn:Hrows end;
        cbn [Py.bind fst snd] in H; [|discriminate].
      eapply ens_rows_test_words; eassumption. }
  destruct Hboth as [Hrows Hnotice]. split; [exact Hrows|].
  intros w Hin Hnone. split; [apply Hnotice; assumption|].
  intro Hw. apply in_map_iff in Hw. destruct Hw as [row [Hfst Hrow]].
  destruct (Hrows row Hrow) as [_ [emb [Hemb Hv]]].
  rewrite Hfst, (Hnone emb Hemb) in Hv. discriminate.
Qed.

Lemma example_gender_table_with_unknown_word :
  ens_projections_to_bipolar_dimensions example_ensemble_AC ["throne"; "man"]
    example_gender false
  = Ok {| ens_columns := ["test_word"; "gender"; "gender(std)"];
          ens_rows := [("man", [Some (7 / 10)%R; Some (3 / 10)%R])];
          ens_notices := [TestWordInNoEmbedding "throne"] |}.
Proof.
  unfold ens_projections_to_bipolar_dimensions.
  change (ens_bipolar_processed_dims example_ensemble_AC example_gender)
    with (Ok ([("gender", [(0, (["man"], ["woman"])); (1, (["man"], ["woman"]))])],
              @nil notice)).
  cbn [Py.bind fst snd mapM_log map example_gender].
  unfold ens_row.
  change (emb_idx_of example_ensemble_AC "throne") with (@nil Z).
  change (emb_idx_of example_ensemble_AC "man") with [0; 1].
  cbn -[member_results mean_cells std_cells].
  rewrite example_gender_results. cbn -[mean_cells std_cells].
  rewrite example_gender_mean, example_gender_std. reflexivity.
Qed.

Lemma ensemble_drops_unknown_test_words_witness :
  In (TestWordInNoEmbedding "throne") [TestWordInNoEmbedding "throne"]
  /\ ~ In "throne" (map fst [("man", [Some (7 / 10)%R; Some (3 / 10)%R])]).
Proof.
  apply (proj2 (ensemble_drops_unknown_test_words example_ensemble_AC ["throne"; "man"]
                  false
                  {| ens_columns := ["test_word"; "gender"; "gender(std)"];
                     ens_rows := [("man", [Some (7 / 10)%R; Some (3 / 10)%R])];
                     ens_notices := [TestWordInNoEmbedding "throne"] |}
                  (or_introl (ex_intro _ example_gender
                                example_gender_table_with_unknown_word)))
           "throne").
  - left. reflexivity.
  - intros emb [H|[H|[]]]; subst emb; reflexivity.
Defined.

(** X22. With an empty list of test words no ensemble projection returns a
    table: when the dimensions pass the first loop, the call ends in the
    [UnboundLocalError] of the column list that only the loop over the test
    words creates. *)
Theorem ensemble_projection_without_test_word
  (ens : EmbeddingEnsemble) (normalize_before : bool) :
  (forall dimensions,
      exists e, ens_projections_to_bipolar_dimensions ens [] dimensions normalize_before
                = Raise e)
  /\ (forall dimensions,
      exists e, ens_projections_to_unipolar_dimensions ens [] dimensions normalize_before
                = Raise e)
  /\ (forall dimensions pd,
      ens_bipolar_processed_dims ens dimensions = Ok pd ->
      ens_projections_to_bipolar_dimensions ens [] dimensions normalize_before
      = Raise UnboundLocalError)
  /\ (forall dimensions pd,
      ens_unipolar_processed_dims ens dimensions = Ok pd ->
      ens_projections_to_unipolar_dimensions ens [] dimensions normalize_before
      = Raise UnboundLocalError).
Proof.
  unfold ens_projections_to_bipolar_dimensions, ens_projections_to_unipolar_dimensions.
  split; [|split; [|split]].
  - intro dimensions.
    destruct (ens_bipolar_processed_dims ens dimensions) as [pd|e]; simpl; eexists; reflexivity.
  - intro dimensions.
    destruct (ens_unipolar_processed_dims ens dimensions) as [pd|e]; simpl; eexists; reflexivity.
  - intros dimensions pd H. rewrite H. reflexivity.
  - intros dimensions pd H. rewrite H. reflexivity.
Qed.

Lemma ensemble_projection_without_test_word_witness :
  ens_projections_to_bipolar_dimensions example_ensemble [] example_gender true
  = Raise UnboundLocalError.
Proof.
  apply (proj1 (proj2 (proj2 (ensemble_projection_without_test_word example_ensemble true)))
           example_gender
           ([("gender", [(0, (["man"], ["woman"])); (1, (["man"], ["woman"]))])], [])).
  reflexivity.
Defined.






(** ** The similarity table of a single embedding *)

Lemma sim_asc_total (x y : sim_row) : sim_asc x y = false -> sim_asc y x = true.
Proof.
  unfold sim_asc. destruct (Rle_dec (snd x) (snd y)) as [H|H]; [discriminate|].
  intros _. destruct (Rle_dec (snd y) (snd x)) as [H'|H']; [reflexivity|].
  exfalso. apply H. apply Rlt_le. apply Rnot_le_lt. exact H'.
Qed.

Lemma Sorted_weaken {A : Type} (P Q : A -> A -> Prop) (l : list A) :
  (forall x y, P x y -> Q x y) -> Sorted P l -> Sorted Q l.
Proof.
  intros HPQ Hs. induction Hs as [|x l' Hl IH Hh]; constructor; [exact IH|].
  destruct Hh; constructor. apply HPQ. assumption.
Qed.

Lemma similarities_rows (emb : WordEmbedding) (pairs : list (string * string))
  (rows : list sim_row) :
  mapM (fun p : string * string =>
          let (word1, word2) := p in
          s <- similarity emb word1 word2 ;;
          Ok (word1, word2, round3 s))
       pairs = Ok rows ->
  map fst rows = pairs
  /\ Forall (fun r : sim_row => exists z, snd r = (IZR z / 1000)%R) rows.
Proof.
  revert rows. induction pairs as [|[w1 w2] t IH]; simpl; intros rows H.
  - inversion H. split; [reflexivity | constructor].
  - destruct (similarity emb w1 w2) as [s|e]; simpl in H; [|discriminate].
    match type of H with context [mapM ?f t] =>
      destruct (mapM f t) as [rows'|e] eqn:Ht end; simpl in H; [|discriminate].
    inversion H; subst. destruct (IH rows' eq_refl) as [Hf Hr].
    split; [simpl; rewrite Hf; reflexivity|].
    constructor; [|exact Hr]. simpl. unfold round3. eexists. reflexivity.
Qed.

(** X24. With both words of every pair in the vocabulary,
    [WordEmbedding.similarities] returns one row per pair, ordered by
    ascending similarity, and every similarity in the table is a whole
    number of thousandths; an exception that the method raises is a
    [KeyError]. *)
Theorem similarities_table_sorted (emb : WordEmbedding) (pairs : list (string * string)) :
  (pairs_in_vocab pairs emb ->
   exists df,
     similarities emb pairs = Ok df
     /\ Sorted (fun a b : sim_row => (snd a <= snd b)%R) df
     /\ Permutation (map fst df) pairs
     /\ Forall (fun r : sim_row => exists z, snd r = (IZR z / 1000)%R) df)
  /\ (forall e, similarities emb pairs = Raise e -> e = KeyError).
Proof.
  split.
  - intro Hv. destruct (similarities_in_vocab emb pairs Hv) as [df Hdf].
    exists df. split; [exact Hdf|].
    unfold similarities in Hdf.
    match type of Hdf with context [mapM ?f pairs] =>
      destruct (mapM f pairs) as [rows|e] eqn:Hm end; cbn [Py.bind] in Hdf; [|discriminate].
    inversion Hdf; subst. clear Hdf.
    destruct (similarities_rows emb pairs rows Hm) as [Hf Hr].
    split; [|split].
    + apply (Sorted_weaken (fun a b => sim_asc a b = true)).
      * intros x y H. unfold sim_asc in H.
        destruct (Rle_dec (snd x) (snd y)); [assumption | discriminate].
      * apply sort_by_Sorted. exact sim_asc_total.
    + rewrite (Permutation_map fst (sort_by_perm sim_asc rows)), Hf. reflexivity.
    + apply (Permutation_Forall (x := rows)); [symmetry; apply sort_by_perm | exact Hr].
  - intros e H. unfold similarities in H.
    match type of H with context [mapM ?f pairs] =>
      destruct (mapM f pairs) as [rows|e'] eqn:Hm end; cbn [Py.bind] in H; [discriminate|].
    inversion H; subst. eapply mapM_raises_only; [|exact Hm].
    intros [w1 w2] e'. destruct (similarity emb w1 w2) as [s|e''] eqn:Hs; simpl;
      [discriminate|].
    intro H'. inversion H'; subst. eapply similarity_raises_KeyError. eassumption.
Qed.

Lemma similarities_table_sorted_witness :
  exists df,
    similarities example_emb_A [("man", "woman"); ("king", "man")] = Ok df
    /\ Sorted (fun a b : sim_row => (snd a <= snd b)%R) df
    /\ Permutation (map fst df) [("man", "woman"); ("king", "man")]
    /\ Forall (fun r : sim_row => exists z, snd r = (IZR z / 1000)%R) df.
Proof.
  apply (proj1 (similarities_table_sorted example_emb_A [("man", "woman"); ("king", "man")])).
  intros p [H|[H|[]]]; subst p; split; reflexivity.
Defined.

(** ** Bounds of a frequency *)

Lemma count_in_document_bounds (word : string) (d : list string) :
  0 <= count_in_document word 0 d <= len d.
Proof.
  unfold len. induction d as [|x t IH].
  - unfold count_in_document. simpl. lia.
  - rewrite count_in_document_cons. cbn [length].
    destruct (String.eqb x word); lia.
Qed.

(** X25. With a training corpus attached, the frequency of a word lies
    between 0 and the size of the training data. *)
Theorem frequency_bounded_by_corpus_size
  (emb : WordEmbedding) (corpus : list (list string)) (word : string) :
  training_data emb = Some corpus ->
  exists f size,
    frequency_in_training_data emb word = Ok f
    /\ training_data_size emb = Ok size
    /\ 0 <= f <= size.
Proof.
  intro Htd. unfold frequency_in_training_data, training_data_size. rewrite Htd.
  eexists. eexists. split; [reflexivity|]. split; [reflexivity|].
  rewrite frequency_fold_concat.
  assert (Hs : forall c, fold_left (fun counter sentence => counter + len sentence) corpus c
                         = c + len (concat corpus)).
  { unfold len. clear Htd. induction corpus as [|s t IH]; intro c; simpl; [lia|].
    rewrite IH, length_app. lia. }
  rewrite Hs. pose proof (count_in_document_bounds word (concat corpus)). lia.
Qed.

Lemma frequency_bounded_by_corpus_size_witness :
  exists f size,
    frequency_in_training_data example_emb_ngrams "new" = Ok f
    /\ training_data_size example_emb_ngrams = Ok size
    /\ 0 <= f <= size.
Proof.
  apply (frequency_bounded_by_corpus_size example_emb_ngrams
           [["new"; "york"; "new"]; ["york"]; []; ["new"]]).
  reflexivity.
Defined.

(** ** When the bipolar projection of a single embedding returns *)





(** ** Words of the vocabulary with their frequencies *)

Lemma mapM_with_frequency (emb : WordEmbedding) (corpus : list (list string))
  (ws : list string) :
  training_data emb = Some corpus ->
  mapM (fun w => f <- frequency_in_training_data emb w ;; Ok (w, f)) ws
  = Ok (map (fun w => (w, fold_left (count_in_document w) corpus 0)) ws).
Proof.
  intro Htd. induction ws as [|w t IH]; cbn [mapM map]; [reflexivity|].
  rewrite IH. unfold frequency_in_training_data. rewrite Htd. reflexivity.
Qed.

(** X27. [vocab_containing] with [show_frequency=True] raises [ValueError]
    without a training corpus, even when no word of the vocabulary contains
    the part.  With a corpus it returns the words that [vocab_containing]
    returns without frequencies, each with its frequency in the corpus, the
    rows with the larger frequencies first. *)
Theorem vocab_containing_frequencies (emb : WordEmbedding) (word_part : string) :
  (training_data emb = None ->
   vocab_containing_with_frequency emb word_part = Raise ValueError)
  /\ (forall corpus, training_data emb = Some corpus ->
      exists t,
        vocab_containing_with_frequency emb word_part = Ok t
        /\ most_frequent_first t
        /\ Permutation (map fst t) (vocab_containing emb word_part)
        /\ forall w c, In (w, c) t -> frequency_in_training_data emb w = Ok c).
Proof.
  unfold vocab_containing_with_frequency. split.
  - intro H. rewrite H. reflexivity.
  - intros corpus Htd. rewrite Htd.
    rewrite (mapM_with_frequency emb corpus) by assumption. cbn [Py.bind].
    eexists. split; [reflexivity|]. split; [apply sort_freq_desc_sorted|]. split.
    + rewrite (Permutation_map fst (sort_by_perm freq_desc _)), map_map. simpl.
      rewrite map_id. reflexivity.
    + intros w c Hin. apply sort_by_In in Hin. apply in_map_iff in Hin.
      destruct Hin as [x [Hx _]]. inversion Hx; subst.
      unfold frequency_in_training_data. rewrite Htd. reflexivity.
Qed.

Lemma vocab_containing_frequencies_witness :
  vocab_containing_with_frequency example_emb_A "zzz" = Raise ValueError
  /\ vocab_containing_with_frequency example_emb_ngrams "york"
     = Ok [("york", 2); ("new_york", 0); ("new_york_city", 0)].
Proof.
  split.
  - apply (proj1 (vocab_containing_frequencies example_emb_A "zzz")). reflexivity.
  - destruct (proj2 (vocab_containing_frequencies example_emb_ngrams "york")
                [["new"; "york"; "new"]; ["york"]; []; ["new"]] eq_refl)
      as [t [Ht _]].
    rewrite Ht. vm_compute in Ht. inversion Ht. reflexivity.
Defined.

(** ** The centroid of difference vectors *)

(** X28. The centroid of the difference vectors of a single pair is the
    difference vector of the pair, with the exceptions of [difference_vector];
    for two or more pairs the call raises what the first failing pair raises,
    so a pair that repeats a word of the vocabulary ends it with
    [ValueError] when the pairs before it have differences. *)
Theorem centroid_of_differences
  (emb : WordEmbedding) (normalize_diffs : bool) :
  (forall word1 word2,
      centroid_of_difference_vectors emb [(word1, word2)] normalize_diffs false
      = result_map Some (difference_vector emb word1 word2 normalize_diffs))
  /\ (forall before after w normalize_centroid,
      in_vocab emb w = true ->
      (forall p, In p before ->
         exists d, difference_vector emb (fst p) (snd p) normalize_diffs = Ok d) ->
      centroid_of_difference_vectors emb (before ++ (w, w) :: after)
        normalize_diffs normalize_centroid
      = Raise ValueError).
Proof.
  unfold centroid_of_difference_vectors, difference_vectors. split.
  - intros word1 word2. cbn [mapM fst snd].
    destruct (difference_vector emb word1 word2 normalize_diffs) as [d|e]; simpl;
      [|reflexivity].
    rewrite scale_inv_1. reflexivity.
  - intros before after w nc Hw Hb.
    rewrite (mapM_stops _ ValueError).
    + reflexivity.
    + exact Hb.
    + simpl. apply difference_vector_same_word. assumption.
Qed.

Lemma centroid_of_differences_witness :
  centroid_of_difference_vectors example_emb_A [("man", "woman"); ("king", "king")]
    true false
  = Raise ValueError.
Proof.
  apply (proj2 (centroid_of_differences example_emb_A true)
           [("man", "woman")] [] "king" false).
  - reflexivity.
  - intros p [H|[]]. subst p. simpl. eexists. apply difference_A_man_woman.
Defined.
